(** * CloudTrail correlation for the EC2 runner credential check

    A shallow embedding of [ec2-runner/analyze_cloudtrail_events.py]: the
    three extractors ([extract_run_instances_data],
    [find_assume_role_events], [find_get_parameter_events]), [analyze], and
    the ingestion around them ([fetch_events], [save_events_to_file],
    [create_cloudtrail_client], [main]), followed by the properties of the
    correlation that the specification states and by further properties of
    the extractors and of the ingestion.

    Conventions of the embedding.
    - A decoded JSON document is a [json] tree of objects, arrays, text and
      null.  Numbers and booleans are left out: in a CloudTrail record they
      occur only in members that the script never reads.
    - The collections are lists of records, as [List[dict]] says.  The
      [CloudTrailEvent] member of a record is a text that the script hands
      to [json.loads]; the record is represented by what that decoding
      meets ([encoded]): a document, or the exception that the decoder
      raises.
    - Python exceptions are values of [exn]; a computation that may raise
      has type [res A].  [KeyError] and [json.JSONDecodeError] are the two
      that the per-record handlers catch, any other one leaves the function.
    - A [dict] that is iterated is a list of items in insertion order; a
      [dict] that is only looked up is a [gmap]; a [set] is a [gset], whose
      [elements] stand for the iteration order of the set.
    - Diagnostic [print] calls inside the extractors are left out; what
      [analyze] prints at the end is its result ([report]). *)

From stdpp Require Import base option list gmap strings.
From Stdlib Require Import String Ascii.

Local Open Scope string_scope.
Local Open Scope list_scope.

(** ** Python values and exceptions *)

Set Warnings "-register-all,-clear-no-such-hyp".

Inductive json : Type :=
  | JNull
  | JStr (s : string)
  | JArr (items : list json)
  | JObj (members : list (string * json)).

Inductive exn : Type :=
  | KeyError
  | JSONDecodeError
  | TypeError
  | AttributeError
  | IndexError
  | RecursionError
  | FileNotFoundError.

Inductive res (A : Type) : Type :=
  | Ok (a : A)
  | Raise (e : exn).
Arguments Ok {A} a.
Arguments Raise {A} e.

#[export] Instance res_ret : MRet res := fun _ a => Ok a.
#[export] Instance res_bind : MBind res := fun _ _ f c =>
  match c with
  | Ok a => f a
  | Raise e => Raise e
  end.

(** [for x in xs: s = body(s, x)], where [body] may raise. *)
Fixpoint for_each {A S : Type} (body : S → A → res S) (xs : list A) (s : S)
  : res S :=
  match xs with
  | [] => Ok s
  | x :: xs' => s' ← body s x; for_each body xs' s'
  end.

(** The handler [except (KeyError, json.JSONDecodeError): continue] around
    the body of a loop whose state is [s]. *)
Definition except_continue {S : Type} (s : S) (attempt : res S) : res S :=
  match attempt with
  | Raise KeyError => Ok s
  | Raise JSONDecodeError => Ok s
  | other => other
  end.

(** [bool(v)]. *)
Definition truthy (v : json) : bool :=
  match v with
  | JNull => false
  | JStr "" => false
  | JArr [] => false
  | JObj [] => false
  | _ => true
  end.

Fixpoint member (k : string) (members : list (string * json)) : option json :=
  match members with
  | [] => None
  | (k', v) :: rest => if decide (k = k') then Some v else member k rest
  end.

(** [d.get(k, dflt)]: only a dict has the method. *)
Definition py_get_default (d : json) (k : string) (dflt : json) : res json :=
  match d with
  | JObj members => Ok (default dflt (member k members))
  | _ => Raise AttributeError
  end.

(** [d.get(k)], whose default is [None]. *)
Definition py_get (d : json) (k : string) : res json := py_get_default d k JNull.

(** [d[k]] for a text key [k]: [KeyError] on a dict without the key;
    text, arrays and [None] do not take a text subscript. *)
Definition py_getitem (d : json) (k : string) : res json :=
  match d with
  | JObj members =>
      match member k members with
      | Some v => Ok v
      | None => Raise KeyError
      end
  | _ => Raise TypeError
  end.

(** [v[0]].  A dict decoded from JSON has text keys only, so the integer
    key is missing; the first character of a text is a text. *)
Definition py_first (v : json) : res json :=
  match v with
  | JArr (x :: _) => Ok x
  | JArr [] => Raise IndexError
  | JStr (String c _) => Ok (JStr (String c EmptyString))
  | JStr EmptyString => Raise IndexError
  | JObj _ => Raise KeyError
  | JNull => Raise TypeError
  end.

Fixpoint chars (s : string) : list json :=
  match s with
  | EmptyString => []
  | String c s' => JStr (String c EmptyString) :: chars s'
  end.

(** [iter(v)]: the elements of an array, the keys of a dict, the characters
    of a text; [None] is not iterable. *)
Definition py_iter (v : json) : res (list json) :=
  match v with
  | JArr items => Ok items
  | JObj members => Ok (map (λ kv, JStr kv.1) members)
  | JStr s => Ok (chars s)
  | JNull => Raise TypeError
  end.

(** [v == s] for a text literal [s]. *)
Definition eq_text (v : json) (s : string) : bool :=
  match v with
  | JStr s' => bool_decide (s' = s)
  | _ => false
  end.

(** [needle in hay] on texts: substring containment. *)
Fixpoint str_in (needle hay : string) : bool :=
  String.prefix needle hay ||
  match hay with
  | EmptyString => false
  | String _ hay' => str_in needle hay'
  end.

(** [needle in v] for a text [needle]: substring of a text, element of an
    array, key of a dict; [None] is not a container. *)
Definition py_in (needle : string) (v : json) : res bool :=
  match v with
  | JStr hay => Ok (str_in needle hay)
  | JArr items => Ok (existsb (λ x, eq_text x needle) items)
  | JObj members => Ok (existsb (λ kv, bool_decide (kv.1 = needle)) members)
  | JNull => Raise TypeError
  end.

(** ** Raw audit records *)

(** What [json.loads(event['CloudTrailEvent'])] meets: the member may be
    missing from the record ([KeyError]), hold something that is not a text
    ([TypeError]), hold a text that the decoder rejects with
    [json.JSONDecodeError] ([Malformed]), hold a text on which the decoder
    gives up with another exception, as it does with [RecursionError] on
    brackets nested deeper than the interpreter's recursion limit
    ([TooDeep]), or hold the JSON text of a document.  Not every text that
    is not JSON is [Malformed]: a long run of opening brackets is not JSON
    and is [TooDeep]. *)
Inductive encoded : Type :=
  | Missing
  | NotText
  | Malformed
  | TooDeep
  | Encodes (document : json).

Record event : Type := Event { CloudTrailEvent : encoded }.

Definition loads_CloudTrailEvent (e : event) : res json :=
  match CloudTrailEvent e with
  | Missing => Raise KeyError
  | NotText => Raise TypeError
  | Malformed => Raise JSONDecodeError
  | TooDeep => Raise RecursionError
  | Encodes document => Ok document
  end.

(** ** Insertion-ordered dictionaries with text keys

    [d[k] = v]: an existing key keeps its position and takes the new value,
    a new key goes to the end. *)
Fixpoint dict_set {V : Type} (k : string) (v : V) (d : list (string * V))
  : list (string * V) :=
  match d with
  | [] => [(k, v)]
  | (k', v') :: d' =>
      if decide (k = k') then (k, v) :: d' else (k', v') :: dict_set k v d'
  end.

Fixpoint dict_get {V : Type} (k : string) (d : list (string * V)) : option V :=
  match d with
  | [] => None
  | (k', v) :: d' => if decide (k = k') then Some v else dict_get k d'
  end.

(** ** extract_run_instances_data *)

Definition ENVIRONMENT_TAG : string := "gitpod.dev/environment-id".

(** [next((tag['value'] for tag in tags if tag.get('key') == ENVIRONMENT_TAG),
    None)] over the elements of [tags]: the generator stops at the first
    tag that carries the key, so later tags are never looked at. *)
Fixpoint first_environment_tag (tags : list json) : res json :=
  match tags with
  | [] => Ok JNull
  | tag :: rest =>
      key ← py_get tag "key";
      if eq_text key ENVIRONMENT_TAG
      then py_getitem tag "value"
      else first_environment_tag rest
  end.

(** Whether a value can be a dict key or a set element: text and [None]
    are hashable, arrays and dicts are not. *)
Definition hashable (v : json) : res (option string) :=
  match v with
  | JNull => Ok None
  | JStr s => Ok (Some s)
  | JArr _ | JObj _ => Raise TypeError
  end.

(** The [try] block of one iteration (lines 148-185).  [None] is a
    [continue] before the assignment (or a false final test), [Some] is the
    assignment [instance_data[instance_id] = (profile_arn, environment_id)]. *)
Definition run_instances_record (e : event)
  : res (option (string * (json * json))) :=
  cloudtrail_event ← loads_CloudTrailEvent e;
  response_elements ← py_get cloudtrail_event "responseElements";
  if negb (truthy response_elements) then Ok None else
  instances_set ← py_get response_elements "instancesSet";
  if negb (truthy instances_set) then Ok None else
  items ← py_get instances_set "items";
  if negb (truthy items) then Ok None else
  instance ← py_first items;
  if negb (truthy instance) then Ok None else
  instance_id ← py_get instance "instanceId";
  if negb (truthy instance_id) then Ok None else
  iam_profile ← py_get instance "iamInstanceProfile";
  if negb (truthy iam_profile) then Ok None else
  profile_arn ← py_get iam_profile "arn";
  profile_id ← py_get iam_profile "id";
  tag_set ← py_get_default instance "tagSet" (JObj []);
  tags ← py_get_default tag_set "items" (JArr []);
  tag_list ← py_iter tags;
  environment_id ← first_environment_tag tag_list;
  if truthy instance_id && truthy profile_arn && truthy environment_id then
    key ← hashable instance_id;
    match key with
    | Some k => Ok (Some (k, (profile_arn, environment_id)))
    | None => Ok None  (* [None] is falsy: excluded by the test above *)
    end
  else Ok None.

Definition run_instances_step (instance_data : list (string * (json * json)))
    (e : event) : res (list (string * (json * json))) :=
  except_continue instance_data
    (fact ← run_instances_record e;
     match fact with
     | Some (instance_id, data) => Ok (dict_set instance_id data instance_data)
     | None => Ok instance_data
     end).

Definition extract_run_instances_data (events : list event)
  : res (list (string * (json * json))) :=
  for_each run_instances_step events [].

(** ** find_assume_role_events *)

(** [x in s] for a hashable [x] and a set of texts. *)
Definition in_text_set (x : option string) (s : gset string) : bool :=
  match x with
  | Some a => bool_decide (a ∈ s)
  | None => false
  end.

(** The [try] block of one iteration (lines 203-211).  The session token is
    the key of the result, so it has to be hashable. *)
Definition assume_role_record (profile_arns : gset string)
    (assume_role_data : gmap (option string) json) (e : event)
  : res (gmap (option string) json) :=
  cloudtrail_event ← loads_CloudTrailEvent e;
  event_name ← py_getitem cloudtrail_event "eventName";
  if eq_text event_name "AssumeRole" then
    request_parameters ← py_getitem cloudtrail_event "requestParameters";
    role_arn ← py_getitem request_parameters "roleArn";
    role_key ← hashable role_arn;
    if in_text_set role_key profile_arns then
      response_elements ← py_getitem cloudtrail_event "responseElements";
      credentials ← py_getitem response_elements "credentials";
      session_id ← py_getitem credentials "sessionToken";
      response_elements' ← py_getitem cloudtrail_event "responseElements";
      credentials' ← py_getitem response_elements' "credentials";
      access_key_id ← py_getitem credentials' "accessKeyId";
      session_key ← hashable session_id;
      Ok (<[session_key := access_key_id]> assume_role_data)
    else Ok assume_role_data
  else Ok assume_role_data.

Definition assume_role_step (profile_arns : gset string)
    (assume_role_data : gmap (option string) json) (e : event)
  : res (gmap (option string) json) :=
  except_continue assume_role_data
    (assume_role_record profile_arns assume_role_data e).

Definition find_assume_role_events (events : list event)
    (profile_arns : gset string) : res (gmap (option string) json) :=
  for_each (assume_role_step profile_arns) events ∅.

(** ** find_get_parameter_events *)

(** [parameter_data[env_id].append(parameter_name)] on a
    [defaultdict(list)]: a tenant without a list gets a new one first. *)
Definition append_parameter (env_id : string) (parameter_name : json)
    (parameter_data : gmap string (list json)) : gmap string (list json) :=
  <[env_id := default [] (parameter_data !! env_id) ++ [parameter_name]]>
    parameter_data.

(** Lines 234-236, one turn of the loop over the tenant identifiers. *)
Definition match_environment (parameter_name : json)
    (parameter_data : gmap string (list json)) (env_id : string)
  : res (gmap string (list json)) :=
  py_in env_id parameter_name ≫= λ found : bool,
  if found then Ok (append_parameter env_id parameter_name parameter_data)
  else Ok parameter_data.

(** The [try] block of one iteration (lines 228-236).  The identifiers are
    visited in the iteration order of the set. *)
Definition get_parameter_record (environment_ids : gset string)
    (parameter_data : gmap string (list json)) (e : event)
  : res (gmap string (list json)) :=
  cloudtrail_event ← loads_CloudTrailEvent e;
  event_name ← py_getitem cloudtrail_event "eventName";
  if eq_text event_name "GetParameter" then
    request_parameters ← py_getitem cloudtrail_event "requestParameters";
    parameter_name ← py_getitem request_parameters "name";
    for_each (match_environment parameter_name) (elements environment_ids)
      parameter_data
  else Ok parameter_data.

Definition get_parameter_step (environment_ids : gset string)
    (parameter_data : gmap string (list json)) (e : event)
  : res (gmap string (list json)) :=
  except_continue parameter_data
    (get_parameter_record environment_ids parameter_data e).

Definition find_get_parameter_events (events : list event)
    (environment_ids : gset string) : res (gmap string (list json)) :=
  for_each (get_parameter_step environment_ids) events ∅.

(** ** analyze *)

Definition GET_PARAMETER_FILE : string := "get_parameter_events.json".
Definition RUN_INSTANCES_FILE : string := "run_instances_events.json".
Definition ASSUME_ROLE_FILE : string := "assume_role_events.json".

(** A file of the working directory as [load_json_file] finds it. *)
Inductive file : Type :=
  | NoFile
  | NotJson
  | Holds (events : list event).

Definition load_json_file (files : string → file) (filename : string)
  : res (list event) :=
  match files filename with
  | NoFile => Raise FileNotFoundError
  | NotJson => Raise JSONDecodeError
  | Holds events => Ok events
  end.

(** A set comprehension [{f(data) for data in instance_data.values()}] over
    the values [vs]: an array or a dict is unhashable.  The values stored by
    [extract_run_instances_data] are truthy, so [None] does not occur among
    them ([extract_values_truthy] below); it would add no text. *)
Fixpoint text_set (vs : list json) : res (gset string) :=
  match vs with
  | [] => Ok ∅
  | v :: vs' =>
      key ← hashable v;
      rest ← text_set vs';
      Ok (match key with Some s => {[s]} ∪ rest | None => rest end)
  end.

(** [any(test(x) for x in xs)]: stops at the first true element. *)
Fixpoint py_any {A : Type} (test : A → res bool) (xs : list A) : res bool :=
  match xs with
  | [] => Ok false
  | x :: xs' => test x ≫= λ b : bool, if b then Ok true else py_any test xs'
  end.

(** Lines 281-283; [environment_id] is the tenant of the instance at hand.
    The two [for] clauses of the generator are the two nested [py_any]. *)
Definition has_mismatch (environment_ids : gset string) (environment_id : json)
    (param_names : list json) : res bool :=
  py_any (λ param_name,
    py_any (λ env_id,
      py_in env_id param_name ≫= λ inside : bool,
      Ok (inside && negb (eq_text environment_id env_id)))
      (elements environment_ids))
    param_names.

(** What the script prints for one reported instance (lines 286-291). *)
Record verdict : Type := Verdict {
  instance_id : string;
  profile_arn : json;
  environment_id : json;
  mismatched_calls : list json
}.

(** The closing message (lines 293-298). *)
Inductive summary : Type :=
  | NotExploited
  | FoundMismatched (count : nat).

Record report : Type := Report {
  verdicts : list verdict;
  closing : summary
}.

Definition exploited (r : report) : bool :=
  match closing r with
  | NotExploited => false
  | FoundMismatched _ => true
  end.

(** One turn of the loop of lines 275-291; the state is what has been
    printed so far and [count]. *)
Definition analyze_instance (environment_ids : gset string)
    (parameter_data : gmap string (list json))
    (state : list verdict * nat) (item : string * (json * json))
  : res (list verdict * nat) :=
  let '(instance_id, (profile_arn, environment_id)) := item in
  key ← hashable environment_id;
  match key ≫= (parameter_data !!.) with
  | Some param_names =>
      has_mismatch environment_ids environment_id param_names
        ≫= λ mismatch : bool,
      if mismatch then
        Ok (state.1 ++
              [Verdict instance_id profile_arn environment_id param_names],
            S state.2)
      else Ok state
  | None => Ok state
  end.

(** Lines 274-298. *)
Definition analyze_vulnerability_usage
    (instance_data : list (string * (json * json)))
    (environment_ids : gset string)
    (parameter_data : gmap string (list json)) : res report :=
  state ← for_each (analyze_instance environment_ids parameter_data)
            instance_data ([], 0);
  Ok (Report state.1
        (if bool_decide (state.2 = 0) then NotExploited
         else FoundMismatched state.2)).

Definition analyze (files : string → file) : res report :=
  run_instances_events ← load_json_file files RUN_INSTANCES_FILE;
  assume_role_events ← load_json_file files ASSUME_ROLE_FILE;
  get_parameter_events ← load_json_file files GET_PARAMETER_FILE;
  instance_data ← extract_run_instances_data run_instances_events;
  profile_arns ← text_set (map (λ item, item.2.1) instance_data);
  environment_ids ← text_set (map (λ item, item.2.2) instance_data);
  assume_role_data ← find_assume_role_events assume_role_events profile_arns;
  parameter_data ←
    find_get_parameter_events get_parameter_events environment_ids;
  analyze_vulnerability_usage instance_data environment_ids parameter_data.

(** ** The correlation as a function of the launch facts and the index

    Lines 258 and 274-298 of [analyze]: the tenant identifiers of interest
    are those of the launch facts. *)
Definition correlate (instance_data : list (string * (json * json)))
    (parameter_data : gmap string (list json)) : res report :=
  environment_ids ← text_set (map (λ item, item.2.2) instance_data);
  analyze_vulnerability_usage instance_data environment_ids parameter_data.

(** The two inputs of the correlation as [analyze] computes them from the
    working directory (lines 247-258 and 267). *)
Definition launch_facts_of (files : string → file)
  : res (list (string * (json * json))) :=
  run_instances_events ← load_json_file files RUN_INSTANCES_FILE;
  extract_run_instances_data run_instances_events.


(** Launch facts and an index whose identifiers and names are texts, as
    [Dict[str, Tuple[str, str]]] and [Dict[str, List[str]]] say. *)
Definition launch_facts (facts : list (string * (string * string)))
  : list (string * (json * json)) :=
  map (λ fact, (fact.1, (JStr fact.2.1, JStr fact.2.2))) facts.

Definition secret_index (index : gmap string (list string))
  : gmap string (list json) :=
  fmap (map JStr) index.

Definition tenant_ids (facts : list (string * (string * string)))
  : gset string :=
  list_to_set (map (λ fact, fact.2.2) facts).

(** The names recorded for a tenant; a tenant without a list has none. *)
Definition accessed (index : gmap string (list string)) (tenant : string)
  : list string :=
  default [] (index !! tenant).

(** A name mentions another tenant: it contains the identifier of a tenant
    of interest other than [tenant]. *)
Definition mentions_other (tenants : gset string) (tenant name : string)
  : Prop :=
  ∃ other, other ∈ tenants ∧ other ≠ tenant ∧ str_in other name = true.

Definition mentions_otherb (tenants : gset string) (tenant name : string)
  : bool :=
  existsb (λ other, str_in other name && negb (bool_decide (tenant = other)))
    (elements tenants).

(** An instance is flagged when the report has a verdict for it. *)
Definition flagged (r : report) (id : string) : Prop :=
  ∃ v, v ∈ verdicts r ∧ instance_id v = id.

(** The verdicts that the loop prints for a list of launch facts. *)
Definition verdict_of (index : gmap string (list string))
    (fact : string * (string * string)) : verdict :=
  Verdict fact.1 (JStr fact.2.1) (JStr fact.2.2)
    (map JStr (accessed index fact.2.2)).

Definition printed (tenants : gset string) (index : gmap string (list string))
    (facts : list (string * (string * string))) : list verdict :=
  map (verdict_of index)
    (filter (λ fact, existsb (mentions_otherb tenants fact.2.2)
                       (accessed index fact.2.2) = true) facts).

(** The accessed names that mention another tenant, in the order of the
    access list, one entry for each occurrence. *)
Definition mismatched (tenants : gset string) (tenant : string)
    (names : list string) : list string :=
  List.filter (mentions_otherb tenants tenant) names.

(** The list of mismatched names as the specification words it: one entry
    for each accessed name and each other tenant identifier it contains. *)
Definition spec_mismatched_names (tenants : gset string) (tenant : string)
    (names : list string) : list string :=
  flat_map (λ name,
    flat_map (λ other,
      if str_in other name && negb (bool_decide (tenant = other))
      then [name] else [])
      (elements tenants))
    names.

(** ** Records as the statements see them *)

(** The launch fact that a record yields, if it yields one. *)
Definition launch_fact (e : event) : option (string * (json * json)) :=
  match run_instances_record e with
  | Ok (Some fact) => Some fact
  | _ => None
  end.

Definition launched_id (e : event) : option string := fst <$> launch_fact e.


Definition ok {A : Type} (c : res A) : option A :=
  match c with
  | Ok a => Some a
  | Raise _ => None
  end.

(** The first instance item of a launch record, when the path
    [responseElements.instancesSet.items[0]] leads to one. *)
Definition first_instance (e : event) : option json :=
  cloudtrail_event ← ok (loads_CloudTrailEvent e);
  response_elements ← ok (py_get cloudtrail_event "responseElements");
  instances_set ← ok (py_get response_elements "instancesSet");
  items ← ok (py_get instances_set "items");
  ok (py_first items).

(** The tags of an instance item, as lines 179-181 walk them. *)
Definition instance_tags (instance : json) : res (list json) :=
  tag_set ← py_get_default instance "tagSet" (JObj []);
  tags ← py_get_default tag_set "items" (JArr []);
  py_iter tags.

Definition is_environment_tag (tag : json) : bool :=
  match py_get tag "key" with
  | Ok key => eq_text key ENVIRONMENT_TAG
  | Raise _ => false
  end.

(** A dict lacks a member when the member is absent, null or empty. *)
Definition lacks (d : json) (k : string) : bool :=
  match py_get d k with
  | Ok v => negb (truthy v)
  | Raise _ => false
  end.

(** An instance item that misses the instance id, the instance-profile
    block, the ARN of the profile, or the tenant tag. *)
Definition incomplete (instance : json) : bool :=
  lacks instance "instanceId"
  || lacks instance "iamInstanceProfile"
  || match py_get instance "iamInstanceProfile" with
     | Ok iam_profile => lacks iam_profile "arn"
     | Raise _ => false
     end
  || match instance_tags instance with
     | Ok tags => negb (existsb is_environment_tag tags)
     | Raise _ => false
     end.

(** The record [e] carries the instance id [id], the profile ARN [arn] and
    the tenant identifier [env], none of them null or empty. *)
Definition carries_fact (e : event) (id : string) (arn env : json) : Prop :=
  ∃ instance iam_profile tags tag,
    first_instance e = Some instance ∧
    py_get instance "instanceId" = Ok (JStr id) ∧ id ≠ "" ∧
    py_get instance "iamInstanceProfile" = Ok iam_profile ∧
    truthy iam_profile = true ∧
    py_get iam_profile "arn" = Ok arn ∧ truthy arn = true ∧
    instance_tags instance = Ok tags ∧
    tag ∈ tags ∧ is_environment_tag tag = true ∧
    py_getitem tag "value" = Ok env ∧ truthy env = true.

(** The event name of a record whose body is a dict that has one. *)
Definition event_name (e : event) : option json :=
  cloudtrail_event ← ok (loads_CloudTrailEvent e);
  ok (py_getitem cloudtrail_event "eventName").

(** The parameter name that a secret-read record asks for. *)
Definition requested_parameter (e : event) : option json :=
  cloudtrail_event ← ok (loads_CloudTrailEvent e);
  name ← ok (py_getitem cloudtrail_event "eventName");
  if eq_text name "GetParameter" then
    request_parameters ← ok (py_getitem cloudtrail_event "requestParameters");
    ok (py_getitem request_parameters "name")
  else None.

(** What holds of every list of the index. *)
Definition index_invariant (environment_ids : gset string)
    (pd : gmap string (list json)) : Prop :=
  ∀ t names, pd !! t = Some names →
    t ∈ environment_ids ∧ Forall (λ v, py_in t v = Ok true) names.

(** ** Sample records *)

(** A record of the shape CloudTrail gives to an instance launch: one
    instance with its profile and its tags. *)
Definition launch_event (name id arn env : string) : event :=
  Event (Encodes (JObj [
    ("eventName", JStr name);
    ("responseElements", JObj [
      ("instancesSet", JObj [
        ("items", JArr [
          JObj [
            ("instanceId", JStr id);
            ("iamInstanceProfile", JObj [("arn", JStr arn); ("id", JStr "AIPA")]);
            ("tagSet", JObj [
              ("items", JArr [
                JObj [("key", JStr "Name"); ("value", JStr "runner")];
                JObj [("key", JStr ENVIRONMENT_TAG); ("value", JStr env)]])])]])])])])).

(** A launch record whose instance has no instance-profile block. *)
Definition launch_without_profile (id env : string) : event :=
  Event (Encodes (JObj [
    ("eventName", JStr "RunInstances");
    ("responseElements", JObj [
      ("instancesSet", JObj [
        ("items", JArr [
          JObj [
            ("instanceId", JStr id);
            ("tagSet", JObj [
              ("items", JArr [
                JObj [("key", JStr ENVIRONMENT_TAG); ("value", JStr env)]])])]])])])])).

(** A secret-read record for the parameter [name]. *)
Definition read_event (name : string) : event :=
  Event (Encodes (JObj [
    ("eventName", JStr "GetParameter");
    ("requestParameters", JObj [("name", JStr name)]);
    ("responseElements", JNull)])).

(** A role-assumption record. *)
Definition assume_event (role token key : string) : event :=
  Event (Encodes (JObj [
    ("eventName", JStr "AssumeRole");
    ("requestParameters", JObj [("roleArn", JStr role)]);
    ("responseElements", JObj [
      ("credentials", JObj [
        ("sessionToken", JStr token); ("accessKeyId", JStr key)])])])).

(** A launch record whose instance carries [tagSet: null]. *)
Definition launch_with_null_tags (id arn : string) : event :=
  Event (Encodes (JObj [
    ("eventName", JStr "RunInstances");
    ("responseElements", JObj [
      ("instancesSet", JObj [
        ("items", JArr [
          JObj [
            ("instanceId", JStr id);
            ("iamInstanceProfile", JObj [("arn", JStr arn)]);
            ("tagSet", JNull)]])])])])).

(** A failed launch, which CloudTrail records with [responseElements: null]. *)
Definition failed_launch : event :=
  Event (Encodes (JObj [
    ("eventName", JStr "RunInstances");
    ("errorCode", JStr "Client.InsufficientCapacity");
    ("responseElements", JNull)])).

(** A denied role assumption: no credentials were issued. *)
Definition denied_assume_event (role : string) : event :=
  Event (Encodes (JObj [
    ("eventName", JStr "AssumeRole");
    ("errorCode", JStr "AccessDenied");
    ("requestParameters", JObj [("roleArn", JStr role)]);
    ("responseElements", JNull)])).

(** Three tenants; the first has read one secret of its own and one whose
    name also carries the identifiers of the other two. *)
Definition three_tenants : list (string * (string * string)) :=
  [("i-1", ("role-1", "envA")); ("i-2", ("role-2", "envB"));
   ("i-3", ("role-3", "envC"))].

Definition three_tenants_index : gmap string (list string) :=
  {["envA" := ["/envA/own"; "/envA/envB/envC"]]}.

(** A working directory with the three event files. *)
Definition directory (run_instances assume_role get_parameter : file)
  : string → file :=
  λ filename,
    if decide (filename = RUN_INSTANCES_FILE) then run_instances
    else if decide (filename = ASSUME_ROLE_FILE) then assume_role
    else if decide (filename = GET_PARAMETER_FILE) then get_parameter
    else NoFile.

Definition two_launches : list event :=
  [launch_event "RunInstances" "i-1" "role-1" "envA";
   launch_event "RunInstances" "i-2" "role-2" "envB"].

(** ** Further views of the records *)

(** Lines 166-185: what the body of the launch loop does once
    [instance = items[0]] is at hand and truthy. *)
Definition instance_record (instance : json)
  : res (option (string * (json * json))) :=
  instance_id ← py_get instance "instanceId";
  if negb (truthy instance_id) then Ok None else
  iam_profile ← py_get instance "iamInstanceProfile";
  if negb (truthy iam_profile) then Ok None else
  profile_arn ← py_get iam_profile "arn";
  profile_id ← py_get iam_profile "id";
  tag_list ← instance_tags instance;
  environment_id ← first_environment_tag tag_list;
  if truthy instance_id && truthy profile_arn && truthy environment_id then
    key ← hashable instance_id;
    match key with
    | Some k => Ok (Some (k, (profile_arn, environment_id)))
    | None => Ok None
    end
  else Ok None.

(** The facts that the records of a batch yield for the instance [id], in
    the order of the records. *)
Definition facts_for (id : string) (events : list event) : list (json * json) :=
  omap (λ e, match launch_fact e with
             | Some (id', data) => if decide (id' = id) then Some data else None
             | None => None
             end) events.

(** A launch record with the instance items [items]. *)
Definition launch_of_items (items : list json) : event :=
  Event (Encodes (JObj [
    ("eventName", JStr "RunInstances");
    ("responseElements", JObj [
      ("instancesSet", JObj [("items", JArr items)])])])).

Definition instance_item (id arn : string) (tags : list json) : json :=
  JObj [("instanceId", JStr id);
        ("iamInstanceProfile", JObj [("arn", JStr arn)]);
        ("tagSet", JObj [("items", JArr tags)])].

Definition tag_item (key value : string) : json :=
  JObj [("key", JStr key); ("value", JStr value)].

(** The parameter names that the secret-read records of a batch ask for,
    in the order of the records. *)
Definition requested_names (events : list event) : list json :=
  omap requested_parameter events.

(** [t in v] holds (and does not raise). *)
Definition contains (t : string) (v : json) : bool :=
  match py_in t v with
  | Ok found => found
  | Raise _ => false
  end.

(** The role, the session token and the access key of a role-assumption
    record that carries them all. *)
Definition issued_credentials (e : event) : option (json * json * json) :=
  cloudtrail_event ← ok (loads_CloudTrailEvent e);
  name ← ok (py_getitem cloudtrail_event "eventName");
  if eq_text name "AssumeRole" then
    request_parameters ← ok (py_getitem cloudtrail_event "requestParameters");
    role_arn ← ok (py_getitem request_parameters "roleArn");
    response_elements ← ok (py_getitem cloudtrail_event "responseElements");
    credentials ← ok (py_getitem response_elements "credentials");
    session_id ← ok (py_getitem credentials "sessionToken");
    access_key_id ← ok (py_getitem credentials "accessKeyId");
    Some (role_arn, session_id, access_key_id)
  else None.

(** What a verdict of the report rests on. *)
Definition verdict_grounded (instance_data : list (string * (json * json)))
    (environment_ids : gset string) (parameter_data : gmap string (list json))
    (v : verdict) : Prop :=
  ∃ tenant,
    (instance_id v, (profile_arn v, environment_id v)) ∈ instance_data ∧
    environment_id v = JStr tenant ∧
    parameter_data !! tenant = Some (mismatched_calls v) ∧
    has_mismatch environment_ids (environment_id v) (mismatched_calls v)
    = Ok true.

(** ** Ingestion: fetch_events, save_events_to_file, main

    The CloudTrail client, the clock and the environment are outside the
    script.  The client is a state machine [lookup_events] on client states
    [C]; [boto3_client] is [boto3.client('cloudtrail', region_name=...)];
    [time_range days] is the pair of [datetime.utcnow()] and that instant
    less [timedelta(days=days)] (lines 315-316), whose arithmetic may
    overflow.  A write to a file is taken to succeed.  The loop of
    [fetch_events] has no bound, so its model takes fuel: [None] means that
    the fuel ran out before the loop was left. *)

Inductive error : Type :=
  | AnalysisError (e : exn)
  | ValueError
  | ClientError (code : string)
  | OtherException.

Inductive outcome (A : Type) : Type :=
  | Done (a : A)
  | Failed (e : error).
Arguments Done {A} a.
Arguments Failed {A} e.

(** The keyword arguments of [lookup_events] (lines 72-86). *)
Record lookup_request (T : Type) : Type := LookupRequest {
  EventName : string;
  StartTime : T;
  EndTime : T;
  MaxResults : nat;
  NextToken : option string
}.
Arguments LookupRequest {T}.

(** What a call of [lookup_events] gives: a response, with or without the
    members [Events] and [NextToken], or an exception. *)
Inductive lookup_response : Type :=
  | Response (events : option (list event)) (next_token : option string)
  | LookupFails (e : error).

Definition THROTTLING : string := "ThrottlingException".

(** A token that passes [if next_token]: present and not empty. *)
Definition usable_token (next_token : option string) : option string :=
  match next_token with
  | Some (String c s) => Some (String c s)
  | _ => None
  end.

(** The events in front of an outcome. *)
Definition prepend (events : list event) (result : outcome (list event))
  : outcome (list event) :=
  match result with
  | Done more => Done (events ++ more)
  | Failed e => Failed e
  end.

Definition path_exists (files : string → file) (filename : string) : bool :=
  match files filename with
  | NoFile => false
  | _ => true
  end.

(** [save_events_to_file]: the file holds the events afterwards. *)
Definition save_events_to_file (events : list event) (filename : string)
    (files : string → file) : string → file :=
  λ f, if decide (f = filename) then Holds events else files f.

(** [EVENT_TYPES], in the order of its items. *)
Definition EVENT_TYPES : list (string * string) :=
  [("GetParameter", GET_PARAMETER_FILE);
   ("RunInstances", RUN_INSTANCES_FILE);
   ("AssumeRole", ASSUME_ROLE_FILE)].

(** How [main] ends: with the report of [analyze], with the message that
    no events of some type were found, or with an exception. *)
Inductive main_result : Type :=
  | Reported (r : report)
  | NoEvents (event_name : string)
  | Raised (e : error).

(** The call [analyze()] at the end of [main]. *)
Definition call_analyze (files : string → file) : main_result :=
  match analyze files with
  | Ok r => Reported r
  | Raise e => Raised (AnalysisError e)
  end.

Section Ingestion.
Context {C T : Type}.
Context (lookup_events : C → lookup_request T → lookup_response * C).
Context (boto3_client : string → outcome C).
Context (time_range : Z → outcome (T * T)).

(** The [while True] loop of [fetch_events] (lines 69-113); [events] and
    [next_token] are the two variables it updates. *)
Fixpoint fetch_loop (fuel : nat) (client : C) (event_name : string)
    (start_time end_time : T) (events : list event)
    (next_token : option string) : option (outcome (list event) * C) :=
  match fuel with
  | 0 => None
  | S fuel' =>
      let params :=
        LookupRequest event_name start_time end_time 50
          (usable_token next_token) in
      match lookup_events client params with
      | (Response page next_token', client') =>
          let events' := events ++ default [] page in
          match usable_token next_token' with
          | Some _ =>
              fetch_loop fuel' client' event_name start_time end_time events'
                next_token'
          | None => Some (Done events', client')
          end
      | (LookupFails (ClientError code), client') =>
          if decide (code = THROTTLING)
          then fetch_loop fuel' client' event_name start_time end_time events
                 next_token
          else Some (Failed (ClientError code), client')
      | (LookupFails e, client') => Some (Failed e, client')
      end
  end.

Definition fetch_events (fuel : nat) (client : C) (event_name : string)
    (start_time end_time : T) : option (outcome (list event) * C) :=
  fetch_loop fuel client event_name start_time end_time [] None.

(** [create_cloudtrail_client], given the value of [AWS_REGION]. *)
Definition create_cloudtrail_client (aws_region : option string) : outcome C :=
  match aws_region with
  | Some (String c region) => boto3_client (String c region)
  | _ => Failed ValueError
  end.

(** The loop of lines 320-332 over the event types that are left.  The
    result is the working directory and, when the loop is left early, how
    [main] ends. *)
Fixpoint fetch_event_types (fuel : nat) (client : C) (start_time end_time : T)
    (event_types : list (string * string)) (files : string → file)
  : option ((string → file) * option main_result) :=
  match event_types with
  | [] => Some (files, None)
  | (event_name, filename) :: rest =>
      if path_exists files filename
      then fetch_event_types fuel client start_time end_time rest files
      else
        match fetch_events fuel client event_name start_time end_time with
        | None => None
        | Some (Failed e, _) => Some (files, Some (Raised e))
        | Some (Done [], _) => Some (files, Some (NoEvents event_name))
        | Some (Done events, client') =>
            fetch_event_types fuel client' start_time end_time rest
              (save_events_to_file events filename files)
        end
  end.

(** [main], for the parsed argument [--days]: the working directory it
    leaves and how it ends. *)
Definition main (fuel : nat) (aws_region : option string) (days : Z)
    (files : string → file) : option ((string → file) * main_result) :=
  if forallb (λ event_type, path_exists files event_type.2) EVENT_TYPES
  then Some (files, call_analyze files)
  else
    match create_cloudtrail_client aws_region with
    | Failed e => Some (files, Raised e)
    | Done client =>
        match time_range days with
        | Failed e => Some (files, Raised e)
        | Done (start_time, end_time) =>
            match fetch_event_types fuel client start_time end_time
                    EVENT_TYPES files with
            | None => None
            | Some (files', Some result) => Some (files', result)
            | Some (files', None) => Some (files', call_analyze files')
            end
        end
    end.

(** A conversation with the client that starts with the token [token]:
    throttled calls are repeated, every response adds its events, and the
    token of a response is the token of the next call, until a response
    carries none or a call fails. *)
Inductive lookup_session (event_name : string) (start_time end_time : T)
  : C → option string → outcome (list event) → C → Prop :=
  | session_throttled client client' client'' token result :
      lookup_events client
        (LookupRequest event_name start_time end_time 50 (usable_token token))
      = (LookupFails (ClientError THROTTLING), client') →
      lookup_session event_name start_time end_time client' token result
        client'' →
      lookup_session event_name start_time end_time client token result client''
  | session_failed client client' token e :
      lookup_events client
        (LookupRequest event_name start_time end_time 50 (usable_token token))
      = (LookupFails e, client') →
      e ≠ ClientError THROTTLING →
      lookup_session event_name start_time end_time client token (Failed e)
        client'
  | session_last client client' token page next_token :
      lookup_events client
        (LookupRequest event_name start_time end_time 50 (usable_token token))
      = (Response page next_token, client') →
      usable_token next_token = None →
      lookup_session event_name start_time end_time client token
        (Done (default [] page)) client'
  | session_more client client' client'' token page next_token result :
      lookup_events client
        (LookupRequest event_name start_time end_time 50 (usable_token token))
      = (Response page next_token, client') →
      is_Some (usable_token next_token) →
      lookup_session event_name start_time end_time client' next_token result
        client'' →
      lookup_session event_name start_time end_time client token
        (prepend (default [] page) result) client''.
End Ingestion.

(** A client that plays a script: each call takes the next response of the
    list, whatever is asked. *)
Definition scripted : list lookup_response → lookup_request Z
    → lookup_response * list lookup_response :=
  λ script request,
    match script with
    | [] => (LookupFails OtherException, [])
    | response :: rest => (response, rest)
    end.

(** What [main] may have done to the file [f]: nothing, or created it with
    the events, at least one, of one of the event types. *)
Definition kept_or_fetched (event_types : list (string * string))
    (files files' : string → file) (f : string) : Prop :=
  files' f = files f ∨
  (files f = NoFile ∧
   ∃ event_name events,
     (event_name, f) ∈ event_types ∧ events ≠ [] ∧ files' f = Holds events).

(** A client for one run of [main]: two pages of secret reads, a throttled
    call, one page of launches and one of role assumptions. *)
Definition sample_script : list lookup_response :=
  [Response (Some [read_event "/envA/db"]) (Some "page-2");
   Response (Some [read_event "/envA/envB/db"]) None;
   LookupFails (ClientError THROTTLING);
   Response (Some two_launches) None;
   Response (Some [assume_event "role-1" "token-1" "key-1"]) None].

Definition sample_files : string → file :=
  directory (Holds two_launches)
    (Holds [assume_event "role-1" "token-1" "key-1"])
    (Holds [read_event "/envA/db"; read_event "/envA/envB/db"]).

Definition sample_report : report :=
  Report [Verdict "i-1" (JStr "role-1") (JStr "envA")
            [JStr "/envA/db"; JStr "/envA/envB/db"];
          Verdict "i-2" (JStr "role-2") (JStr "envB")
            [JStr "/envA/envB/db"]]
    (FoundMismatched 2).

Definition empty_directory : string → file := λ _, NoFile.

(** The directory after the sample run: the three files in the order in
    which [main] writes them. *)
Definition fetched_directory : string → file :=
  save_events_to_file [assume_event "role-1" "token-1" "key-1"]
    ASSUME_ROLE_FILE
    (save_events_to_file two_launches RUN_INSTANCES_FILE
       (save_events_to_file [read_event "/envA/db"; read_event "/envA/envB/db"]
          GET_PARAMETER_FILE empty_directory)).

Definition sample_client (script : list lookup_response)
  : string → outcome (list lookup_response) :=
  λ region, Done script.

Definition sample_range : Z → outcome (Z * Z) :=
  λ days, Done ((0 - days)%Z, 0%Z).

(** * Properties *)

(** ** The exception monad and the loops *)

Lemma bind_ok_inv {A B : Type} (c : res A) (f : A → res B) (b : B) :
  c ≫= f = Ok b → ∃ a, c = Ok a ∧ f a = Ok b.
Proof. destruct c as [a|e]; [eauto | discriminate]. Qed.

(** [bind_inv H as x Hx]: from [H : (x ← c; k x) = Ok b], name the value
    [x] of [c], keep [Hx : c = Ok x], and go on with [H : k x = Ok b]. *)
Tactic Notation "bind_inv" hyp(H) "as" simple_intropattern(x) ident(Hx) :=
  apply bind_ok_inv in H as (x & Hx & H).

Lemma for_each_app {A S : Type} (body : S → A → res S) (xs ys : list A) (s : S) :
  for_each body (xs ++ ys) s = for_each body xs s ≫= for_each body ys.
Proof.
  revert s. induction xs as [|x xs IH]; intros s; [done|].
  simpl. destruct (body s x) as [s'|e]; simpl; [apply IH | done].
Qed.

Lemma for_each_snoc {A S : Type} (body : S → A → res S) (xs : list A) (x : A) (s : S) :
  for_each body (xs ++ [x]) s = for_each body xs s ≫= λ s', body s' x.
Proof.
  rewrite for_each_app. destruct (for_each body xs s) as [s'|e]; [|done].
  simpl. by destruct (body s' x).
Qed.

(** A turn that leaves every state as it is can be dropped from the loop. *)
Lemma for_each_skip {A S : Type} (body : S → A → res S) (xs ys : list A)
    (x : A) (s : S) :
  (∀ s', body s' x = Ok s') →
  for_each body (xs ++ x :: ys) s = for_each body (xs ++ ys) s.
Proof.
  intros Hskip. rewrite !for_each_app.
  destruct (for_each body xs s) as [s'|]; [|done].
  simpl. by rewrite Hskip.
Qed.

(** A loop invariant: what every successful turn preserves holds at the end. *)
Lemma for_each_abort {A S : Type} (body : S → A → res S) (xs ys : list A)
    (x : A) (s s1 : S) (err : exn) :
  (∀ s', body s' x = Raise err) →
  for_each body xs s = Ok s1 →
  for_each body (xs ++ x :: ys) s = Raise err.
Proof.
  intros Habort Hxs. rewrite for_each_app, Hxs. simpl. by rewrite Habort.
Qed.

Lemma for_each_invariant {A S : Type} (P : S → Prop) (body : S → A → res S)
    (xs : list A) (s s' : S) :
  (∀ s1 x s2, x ∈ xs → P s1 → body s1 x = Ok s2 → P s2) →
  P s → for_each body xs s = Ok s' → P s'.
Proof.
  revert s. induction xs as [|x xs IH]; intros s Hstep Hs Hrun.
  - by injection Hrun as <-.
  - simpl in Hrun. apply bind_ok_inv in Hrun as (s1 & Hx & Hrest).
    apply (IH s1); [|by eapply Hstep; [left|..]|done].
    intros ????; apply Hstep. by right.
Qed.

Lemma except_continue_ok_inv {S : Type} (s s' : S) (attempt : res S) :
  except_continue s attempt = Ok s' → attempt = Ok s' ∨ s' = s.
Proof.
  destruct attempt as [a|[]]; simpl; intros H; try discriminate;
    injection H as <-; auto.
Qed.

(** ** The extractors on single records *)

(** A failed launch and an undecodable record are passed over. *)
Example failed_launch_skipped :
  extract_run_instances_data
    [failed_launch; Event Malformed; Event Missing;
     launch_event "RunInstances" "i-1" "role-1" "envA"]
  = Ok [("i-1", (JStr "role-1", JStr "envA"))].
Proof. reflexivity. Qed.

(** [tagSet: null] is not caught: [None] has no [get]. *)
Example null_tags_raise :
  extract_run_instances_data
    [launch_event "RunInstances" "i-1" "role-1" "envA";
     launch_with_null_tags "i-2" "role-2"]
  = Raise AttributeError.
Proof. reflexivity. Qed.

(** A denied assumption of a role of interest is not caught either:
    [None] takes no subscript.  For a role that is not of interest the
    credentials are never looked at. *)
Example denied_assumption_raises :
  find_assume_role_events [denied_assume_event "role-1"] {["role-1"]}
  = Raise TypeError ∧
  find_assume_role_events [denied_assume_event "role-1"] {["role-2"]} = Ok ∅.
Proof. split; vm_compute; reflexivity. Qed.

Example assumption_recorded :
  find_assume_role_events
    [assume_event "role-1" "token-1" "key-1"; read_event "/envA/db"]
    {["role-1"]}
  = Ok {[Some "token-1" := JStr "key-1"]}.
Proof. vm_compute. reflexivity. Qed.

(** ** Mappings as lists of items *)

Lemma unique_keys_functional {V : Type} (d : list (string * V)) (k : string)
    (v1 v2 : V) :
  NoDup (d.*1) → (k, v1) ∈ d → (k, v2) ∈ d → v1 = v2.
Proof.
  induction d as [|[k' v'] d IH]; simpl; [by intros _ ?%elem_of_nil|].
  rewrite NoDup_cons. intros [Hfresh Hnodup] H1 H2.
  apply elem_of_cons in H1 as [H1|H1], H2 as [H2|H2].
  - congruence.
  - injection H1 as -> ->. destruct Hfresh.
    apply list_elem_of_fmap. by exists (k', v2).
  - injection H2 as -> ->. destruct Hfresh.
    apply list_elem_of_fmap. by exists (k', v1).
  - by apply IH.
Qed.

Lemma dict_get_set {V : Type} (k k' : string) (v : V) (d : list (string * V)) :
  dict_get k' (dict_set k v d) = if decide (k' = k) then Some v else dict_get k' d.
Proof.
  induction d as [|[k0 v0] d IH]; simpl.
  - by destruct (decide (k' = k)).
  - destruct (decide (k = k0)) as [->|Hne]; simpl.
    + by destruct (decide (k' = k0)).
    + destruct (decide (k' = k0)) as [->|Hne'].
      * by rewrite decide_False.
      * done.
Qed.

Lemma dict_set_keys {V : Type} (k : string) (v : V) (d : list (string * V)) :
  (dict_set k v d).*1 = if decide (k ∈ d.*1) then d.*1 else d.*1 ++ [k].
Proof.
  induction d as [|[k0 v0] d IH].
  - case_decide as Hin; [by apply elem_of_nil in Hin | done].
  - cbn [dict_set]. destruct (decide (k = k0)) as [->|Hne].
    + rewrite !fmap_cons. cbn [fst].
      by rewrite decide_True by left.
    + rewrite !fmap_cons, IH. cbn [fst].
      repeat case_decide; try done.
      * exfalso. set_solver.
      * exfalso. set_solver.
Qed.

Lemma dict_set_NoDup {V : Type} (k : string) (v : V) (d : list (string * V)) :
  NoDup (d.*1) → NoDup ((dict_set k v d).*1).
Proof.
  intros Hd. rewrite dict_set_keys. destruct (decide (k ∈ d.*1)); [done|].
  apply NoDup_app. split; [done|]. split; [|apply NoDup_singleton].
  intros x Hx ->%list_elem_of_singleton. done.
Qed.

Lemma dict_get_elem {V : Type} (k : string) (v : V) (d : list (string * V)) :
  dict_get k d = Some v → (k, v) ∈ d.
Proof.
  induction d as [|[k0 v0] d IH]; simpl; [done|].
  destruct (decide (k = k0)) as [->|Hne].
  - intros [= ->]. left.
  - intros H. right. by apply IH.
Qed.

Lemma dict_set_elem {V : Type} (k k' : string) (v v' : V) (d : list (string * V)) :
  (k', v') ∈ dict_set k v d → (k' = k ∧ v' = v) ∨ (k', v') ∈ d.
Proof.
  induction d as [|[k0 v0] d IH]; simpl.
  - intros [= -> ->]%list_elem_of_singleton. by left.
  - destruct (decide (k = k0)) as [->|Hne].
    + intros [[= -> ->]|Hin]%elem_of_cons; [by left|]. right. by right.
    + intros [Heq|Hin]%elem_of_cons; [right; rewrite Heq; left|].
      destruct (IH Hin) as [?|?]; [by left|]. right. by right.
Qed.

(** ** Substring containment *)

Lemma append_String (c : ascii) (s t : string) :
  String c s +:+ t = String c (s +:+ t).
Proof. reflexivity. Qed.

Lemma prefix_app (needle hay : string) :
  String.prefix needle hay = true ↔ ∃ post, hay = needle +:+ post.
Proof.
  revert hay. induction needle as [|c needle IH]; intros hay.
  - split; [intros _; by exists hay | by destruct hay].
  - destruct hay as [|c' hay]; simpl.
    { split; [done | intros [post H]; discriminate]. }
    destruct (Ascii.ascii_dec c c') as [->|Hne].
    + rewrite IH. split; intros [post H]; exists post;
        rewrite ?append_String in *; congruence.
    + split; [done | intros [post H]; rewrite append_String in H; congruence].
Qed.

Lemma str_in_empty (needle : string) :
  str_in needle "" = String.prefix needle "".
Proof. unfold str_in. apply orb_false_r. Qed.

Lemma str_in_String (needle : string) (c : ascii) (hay : string) :
  str_in needle (String c hay)
  = String.prefix needle (String c hay) || str_in needle hay.
Proof. reflexivity. Qed.

(** [str_in] is Python's [in] on texts: the needle occurs somewhere. *)
Lemma str_in_occurs (needle hay : string) :
  str_in needle hay = true ↔ ∃ pre post, hay = pre +:+ needle +:+ post.
Proof.
  induction hay as [|c hay IH].
  - rewrite str_in_empty, prefix_app. split.
    + intros [post H]. by exists "", post.
    + intros (pre & post & H). destruct pre; [by exists post|discriminate].
  - rewrite str_in_String, orb_true_iff, prefix_app, IH. split.
    + intros [[post H]|(pre & post & H)].
      * by exists "", post.
      * exists (String c pre), post. rewrite append_String. by rewrite H.
    + intros (pre & post & H). destruct pre as [|c' pre].
      * left. by exists post.
      * right. exists pre, post. rewrite append_String in H. congruence.
Qed.

(** ** The launch facts *)

Lemma run_instances_step_ok_inv (m m' : list (string * (json * json)))
    (e : event) :
  run_instances_step m e = Ok m' →
  match launch_fact e with
  | Some (id, data) => m' = dict_set id data m
  | None => m' = m
  end.
Proof.
  unfold run_instances_step, launch_fact.
  destruct (run_instances_record e) as [[[id data]|]|[]]; simpl;
    intros [= <-]; done.
Qed.

Lemma extract_keys_unique (events : list event)
    (m : list (string * (json * json))) :
  extract_run_instances_data events = Ok m → NoDup (m.*1).
Proof.
  apply (for_each_invariant (λ m, NoDup (m.*1))); [|apply NoDup_nil_2].
  intros m1 e m2 _ Hm1 Hstep%run_instances_step_ok_inv.
  destruct (launch_fact e) as [[id data]|]; subst; [|done].
  by apply dict_set_NoDup.
Qed.

(** C7. Of two valid launch records that carry the same instance id, the
    extractor keeps one fact: the mapping it returns has one entry for each
    instance id, and the entry of this id is the fact of the record parsed
    last (no later record of the batch carries the id). *)
Theorem last_launch_wins (before between after : list event) (e1 e2 : event)
    (id : string) (data1 data2 : json * json)
    (m : list (string * (json * json))) :
  launch_fact e1 = Some (id, data1) →
  launch_fact e2 = Some (id, data2) →
  Forall (λ e', launched_id e' ≠ Some id) after →
  extract_run_instances_data (before ++ e1 :: between ++ e2 :: after) = Ok m →
  NoDup (m.*1) ∧
  dict_get id m = Some data2 ∧
  (∀ data, (id, data) ∈ m → data = data2).
Proof.
  intros _ Hfact Hafter Hrun.
  pose proof (extract_keys_unique _ _ Hrun) as Hnodup.
  assert (dict_get id m = Some data2) as Hget.
  { unfold extract_run_instances_data in Hrun.
    change (e1 :: between ++ e2 :: after)
      with ((e1 :: between) ++ e2 :: after) in Hrun.
    rewrite app_assoc, for_each_app in Hrun.
    bind_inv Hrun as m0 Hbefore. simpl in Hrun.
    apply bind_ok_inv in Hrun as (m1 & Hstep%run_instances_step_ok_inv & Hrun).
    rewrite Hfact in Hstep. subst m1.
    revert Hrun.
    apply (for_each_invariant (λ m, dict_get id m = Some data2)).
    - intros s1 e' s2 Hin Hs1 Hstep%run_instances_step_ok_inv.
      rewrite Forall_forall in Hafter. specialize (Hafter _ Hin).
      unfold launched_id in Hafter.
      destruct (launch_fact e') as [[id' data']|]; subst; [|done].
      rewrite dict_get_set, decide_False; [done|].
      intros ->. by apply Hafter.
    - by rewrite dict_get_set, decide_True. }
  split; [done|]. split; [done|].
  intros data Hin.
  by apply (unique_keys_functional m id data data2 Hnodup Hin), dict_get_elem.
Qed.

Lemma last_launch_wins_witness :
  NoDup ([("i-1", (JStr "role-2", JStr "envB"))].*1) ∧
  dict_get "i-1" [("i-1", (JStr "role-2", JStr "envB"))]
  = Some (JStr "role-2", JStr "envB") ∧
  (∀ data, ("i-1", data) ∈ [("i-1", (JStr "role-2", JStr "envB"))] →
     data = (JStr "role-2", JStr "envB")).
Proof.
  apply (last_launch_wins [] [] []
           (launch_event "RunInstances" "i-1" "role-1" "envA")
           (launch_event "RunInstances" "i-1" "role-2" "envB")
           "i-1" (JStr "role-1", JStr "envA") (JStr "role-2", JStr "envB")).
  - reflexivity.
  - reflexivity.
  - constructor.
  - vm_compute. reflexivity.
Defined.

Lemma first_environment_tag_found (tags : list json) (env : json) :
  first_environment_tag tags = Ok env → truthy env = true →
  ∃ tag, tag ∈ tags ∧ is_environment_tag tag = true ∧
         py_getitem tag "value" = Ok env.
Proof.
  induction tags as [|tag tags IH]; simpl.
  - by intros [= <-].
  - intros Hfind Htruthy. unfold is_environment_tag.
    bind_inv Hfind as key Hkey.
    destruct (eq_text key ENVIRONMENT_TAG) eqn:Heq.
    + exists tag. rewrite Hkey. split; [left|done].
    + destruct (IH Hfind Htruthy) as (tag' & Hin & Htag').
      exists tag'. split; [by right|done].
Qed.

(** A record yields a fact only when it carries all three of its fields. *)
Lemma launch_fact_carried (e : event) (id : string) (arn env : json) :
  launch_fact e = Some (id, (arn, env)) → carries_fact e id arn env.
Proof.
  unfold launch_fact.
  destruct (run_instances_record e) as [[fact|]|] eqn:Hrecord; try done.
  intros [= ->]. unfold run_instances_record in Hrecord.
  apply bind_ok_inv in Hrecord as (doc & Hdoc & H).
  bind_inv H as response_elements Hre.
  destruct (truthy response_elements); [simpl in H|done].
  bind_inv H as instances_set Hset.
  destruct (truthy instances_set); [simpl in H|done].
  bind_inv H as items Hitems.
  destruct (truthy items); [simpl in H|done].
  bind_inv H as instance Hfirst.
  destruct (truthy instance); [simpl in H|done].
  bind_inv H as instance_id Hid.
  destruct (truthy instance_id) eqn:Hid_truthy; [simpl in H|done].
  bind_inv H as iam_profile Hprofile.
  destruct (truthy iam_profile) eqn:Hprofile_truthy; [simpl in H|done].
  bind_inv H as profile_arn Harn.
  bind_inv H as profile_id Hprofile_id.
  bind_inv H as tag_set Htag_set.
  bind_inv H as tags Htags.
  bind_inv H as tag_list Hiter.
  bind_inv H as environment_id Henv.
  destruct (truthy profile_arn) eqn:Harn_truthy; [simpl in H|done].
  destruct (truthy environment_id) eqn:Henv_truthy; [simpl in H|done].
  apply bind_ok_inv in H as ([key|] & Hkey & H); [|done].
  injection H as -> -> ->.
  destruct instance_id as [|text| |]; try done. injection Hkey as ->.
  destruct (first_environment_tag_found _ _ Henv Henv_truthy)
    as (tag & Hin & Htag & Hvalue).
  exists instance, iam_profile, tag_list, tag.
  repeat split; try done.
  - unfold first_instance. rewrite Hdoc. simpl. rewrite Hre. simpl.
    rewrite Hset. simpl. rewrite Hitems. simpl. by rewrite Hfirst.
  - by intros ->.
  - unfold instance_tags. rewrite Htag_set. simpl. by rewrite Htags.
Qed.

Lemma incomplete_yields_nothing (e : event) (instance : json) :
  first_instance e = Some instance → incomplete instance = true →
  launch_fact e = None.
Proof.
  intros Hfirst Hincomplete.
  destruct (launch_fact e) as [[id [arn env]]|] eqn:Hfact; [|done].
  apply launch_fact_carried in Hfact
    as (instance' & iam_profile & tags & tag & Hfirst' & Hid & Hne & Hprofile
        & Hprofile_truthy & Harn & Harn_truthy & Htags & Hin & Htag & _).
  assert (instance' = instance) as -> by congruence.
  unfold incomplete, lacks in Hincomplete.
  rewrite Hid, Hprofile, Harn, Htags, Hprofile_truthy, Harn_truthy
    in Hincomplete.
  assert (existsb is_environment_tag tags = true) as Hexists.
  { apply existsb_exists. exists tag. by rewrite <- list_elem_of_In. }
  rewrite Hexists in Hincomplete. simpl in Hincomplete.
  by destruct id.
Qed.

Lemma extract_facts_yielded (events : list event)
    (m : list (string * (json * json))) (fact : string * (json * json)) :
  extract_run_instances_data events = Ok m → fact ∈ m →
  ∃ e, e ∈ events ∧ launch_fact e = Some fact.
Proof.
  intros Hrun. revert fact. revert Hrun.
  apply (for_each_invariant
           (λ m, ∀ fact, fact ∈ m → ∃ e, e ∈ events ∧ launch_fact e = Some fact)).
  - intros m1 e m2 He Hm1 Hstep%run_instances_step_ok_inv fact Hfact.
    destruct (launch_fact e) as [[id data]|] eqn:Hyield; subst; [|by apply Hm1].
    destruct fact as [id' data'].
    apply dict_set_elem in Hfact as [[-> ->]|Hfact]; [by exists e | by apply Hm1].
  - by intros fact ?%elem_of_nil.
Qed.

(** The values that the extractor stores are truthy, so a set built from
    them holds no [None]. *)
Lemma extract_values_truthy (events : list event)
    (m : list (string * (json * json))) (id : string) (arn env : json) :
  extract_run_instances_data events = Ok m → (id, (arn, env)) ∈ m →
  id ≠ "" ∧ truthy arn = true ∧ truthy env = true.
Proof.
  intros Hrun Hfact.
  destruct (extract_facts_yielded _ _ _ Hrun Hfact) as (e & _ & Hyield).
  destruct (launch_fact_carried _ _ _ _ Hyield)
    as (i & p & ts & t & _ & _ & Hid & _ & _ & _ & Harn & _ & _ & _ & _ & Henv).
  done.
Qed.

(** Once both set comprehensions of [analyze] have gone through, the launch
    facts are texts throughout. *)
Lemma hashable_launch_facts (m : list (string * (json * json)))
    (profile_arns environment_ids : gset string) :
  (∀ id arn env, (id, (arn, env)) ∈ m → truthy arn = true ∧ truthy env = true) →
  text_set (map (λ item, item.2.1) m) = Ok profile_arns →
  text_set (map (λ item, item.2.2) m) = Ok environment_ids →
  ∃ facts, m = launch_facts facts ∧ environment_ids = tenant_ids facts.
Proof.
  revert profile_arns environment_ids.
  induction m as [|[id [arn env]] m IH]; intros arns ids Htruthy Harns Hids.
  - exists []. injection Hids as <-. done.
  - simpl in Harns, Hids.
    bind_inv Harns as akey Hakey.
    apply bind_ok_inv in Harns as (arns' & Harns' & _).
    bind_inv Hids as ekey Hekey.
    apply bind_ok_inv in Hids as (ids' & Hids' & Hids).
    destruct (Htruthy id arn env) as [Harn Henv]; [left|].
    destruct arn as [|arn| |]; try done. destruct env as [|env| |]; try done.
    destruct (IH arns' ids') as (facts & -> & ->); [|done|done|].
    { intros ??? Hin. apply (Htruthy id0). by right. }
    exists ((id, (arn, env)) :: facts). split; [done|].
    injection Hekey as <-. by injection Hids as <-.
Qed.

(** A record without instance id or without instance-profile block is left
    by a [continue]: the body of the loop neither stores nor raises. *)
Lemma unidentified_launch_skipped (e : event) (instance : json) :
  first_instance e = Some instance →
  lacks instance "instanceId" || lacks instance "iamInstanceProfile" = true →
  run_instances_record e = Ok None.
Proof.
  unfold first_instance, run_instances_record, lacks.
  destruct (loads_CloudTrailEvent e) as [doc|]; [simpl|done].
  destruct (py_get doc "responseElements") as [re|] eqn:Hre; [simpl|done].
  destruct (py_get re "instancesSet") as [iset|] eqn:Hset; [simpl|done].
  destruct (py_get iset "items") as [items|] eqn:Hitems; [simpl|done].
  destruct (py_first items) as [instance'|] eqn:Hfirst; [simpl|done].
  intros [= ->] Hlacks.
  assert (truthy items = true) as ->.
  { by destruct items as [|[|??]|[|??]|]. }
  assert (truthy iset = true) as ->.
  { destruct iset as [| | |[|??]]; try done. simpl in Hitems.
    injection Hitems as <-. done. }
  assert (truthy re = true) as ->.
  { destruct re as [| | |[|??]]; try done. simpl in Hset.
    injection Hset as <-. done. }
  simpl. destruct (truthy instance); [simpl|done].
  destruct instance as [| | |members]; try done. simpl in *.
  destruct (truthy (default JNull (member "instanceId" members)));
    [simpl in *|done].
  by destruct (truthy (default JNull (member "iamInstanceProfile" members))).
Qed.

(** C5. A launch record whose first instance item misses the instance id,
    the instance-profile block, the ARN of the profile or the tenant tag
    adds nothing.  Without instance id or profile block the extractor
    behaves on the batch as on the batch without the record.  In every case
    a mapping returned for a batch that contains the record is the mapping
    returned for the batch without it, and every fact of that mapping was
    carried in full (instance id, profile ARN and tenant identifier, none
    of them null or empty) by some other record of the batch. *)
Theorem incomplete_launch_omitted (before after : list event) (e : event)
    (instance : json) :
  first_instance e = Some instance →
  incomplete instance = true →
  (lacks instance "instanceId" || lacks instance "iamInstanceProfile" = true →
   extract_run_instances_data (before ++ e :: after)
   = extract_run_instances_data (before ++ after)) ∧
  (∀ m, extract_run_instances_data (before ++ e :: after) = Ok m →
     extract_run_instances_data (before ++ after) = Ok m ∧
     ∀ id arn env, (id, (arn, env)) ∈ m →
       id ≠ "" ∧ truthy arn = true ∧ truthy env = true ∧
       ∃ e', e' ∈ before ++ after ∧ carries_fact e' id arn env).
Proof.
  intros Hfirst Hincomplete. split.
  - intros Hlacks. apply for_each_skip. intros m.
    unfold run_instances_step.
    by rewrite (unidentified_launch_skipped _ _ Hfirst Hlacks).
  - intros m Hrun.
    pose proof (incomplete_yields_nothing _ _ Hfirst Hincomplete) as Hnone.
    assert (extract_run_instances_data (before ++ after) = Ok m) as Hwithout.
    { unfold extract_run_instances_data in *.
      rewrite for_each_app in Hrun. rewrite for_each_app.
      destruct (for_each run_instances_step before []) as [m0|]; [|done].
      simpl in *. bind_inv Hrun as m1 Hstep.
      apply run_instances_step_ok_inv in Hstep. rewrite Hnone in Hstep.
      by subst m1. }
    split; [done|]. intros id arn env Hfact.
    destruct (extract_facts_yielded _ _ _ Hwithout Hfact)
      as (e' & He' & Hyield).
    pose proof (launch_fact_carried _ _ _ _ Hyield) as Hcarried.
    assert (id ≠ "" ∧ truthy arn = true ∧ truthy env = true) as (? & ? & ?).
    { destruct Hcarried as (i & p & ts & t & _ & _ & Hid & _ & _ & _ & Harn
                            & _ & _ & _ & _ & Henv). done. }
    repeat split; try done. by exists e'.
Qed.

Lemma incomplete_launch_omitted_witness :
  (lacks (JObj [("instanceId", JStr "i-2");
                ("tagSet", JObj [
                   ("items", JArr [
                      JObj [("key", JStr ENVIRONMENT_TAG);
                            ("value", JStr "envB")]])])]) "instanceId"
   || lacks (JObj [("instanceId", JStr "i-2");
                   ("tagSet", JObj [
                      ("items", JArr [
                         JObj [("key", JStr ENVIRONMENT_TAG);
                               ("value", JStr "envB")]])])])
        "iamInstanceProfile" = true →
   extract_run_instances_data
     ([launch_event "RunInstances" "i-1" "role-1" "envA"]
      ++ launch_without_profile "i-2" "envB" :: [])
   = extract_run_instances_data
       ([launch_event "RunInstances" "i-1" "role-1" "envA"] ++ [])) ∧
  (∀ m, extract_run_instances_data
          ([launch_event "RunInstances" "i-1" "role-1" "envA"]
           ++ launch_without_profile "i-2" "envB" :: []) = Ok m →
     extract_run_instances_data
       ([launch_event "RunInstances" "i-1" "role-1" "envA"] ++ []) = Ok m ∧
     ∀ id arn env, (id, (arn, env)) ∈ m →
       id ≠ "" ∧ truthy arn = true ∧ truthy env = true ∧
       ∃ e', e' ∈ [launch_event "RunInstances" "i-1" "role-1" "envA"] ++ [] ∧
             carries_fact e' id arn env).
Proof.
  apply (incomplete_launch_omitted
           [launch_event "RunInstances" "i-1" "role-1" "envA"] []
           (launch_without_profile "i-2" "envB")).
  - reflexivity.
  - reflexivity.
Defined.

(** ** The secret-access index *)

Lemma match_environments_outcome (name : json) (envs : list string)
    (pd : gmap string (list json)) :
  (∃ pd', for_each (match_environment name) envs pd = Ok pd') ∨
  for_each (match_environment name) envs pd = Raise TypeError.
Proof.
  revert pd. induction envs as [|t envs IH]; intros pd; [left; by eexists|].
  simpl. destruct (match_environment name pd t) as [pd1|err] eqn:Hstep;
    simpl; [apply IH|].
  right. unfold match_environment in Hstep.
  destruct name; simpl in Hstep;
    repeat match type of Hstep with
           | context [if ?b then _ else _] => destruct b
           end; congruence.
Qed.

(** The loop over the tenant identifiers, seen from one tenant [t]: its
    list gets the name at the end when [t] is visited and the name contains
    it, and is left alone otherwise.  Each identifier is visited once. *)
Lemma match_environments_lookup (name : json) (envs : list string)
    (pd pd' : gmap string (list json)) (t : string) :
  NoDup envs →
  for_each (match_environment name) envs pd = Ok pd' →
  (t ∈ envs → py_in t name = Ok true →
   pd' !! t = Some (default [] (pd !! t) ++ [name])) ∧
  (t ∉ envs ∨ py_in t name ≠ Ok true → pd' !! t = pd !! t).
Proof.
  intros Hnodup. revert pd.
  induction Hnodup as [|e envs Hnotin _ IH]; intros pd Hrun.
  - injection Hrun as <-. split; [by intros ?%elem_of_nil | done].
  - simpl in Hrun. bind_inv Hrun as pd1 Hstep.
    destruct (IH _ Hrun) as [IHin IHout].
    unfold match_environment in Hstep. bind_inv Hstep as found Hfound.
    assert (pd1 !! t = if decide (t = e ∧ found = true)
                       then Some (default [] (pd !! t) ++ [name])
                       else pd !! t) as Ht.
    { destruct found; injection Hstep as <-; unfold append_parameter.
      - destruct (decide (t = e)) as [->|Hne].
        + rewrite lookup_insert_eq. by rewrite decide_True.
        + rewrite lookup_insert_ne by done.
          rewrite decide_False; [done|]. by intros [? _].
      - rewrite decide_False; [done|]. by intros [_ ?]. }
    split.
    + intros [->|Hin]%elem_of_cons Hhit.
      * rewrite (IHout (or_introl Hnotin)), Ht.
        rewrite decide_True; [done|]. split; [done|congruence].
      * rewrite (IHin Hin Hhit), Ht.
        rewrite decide_False; [done|]. intros [-> _]. done.
    + intros Hout. rewrite IHout, Ht.
      * rewrite decide_False; [done|]. intros [-> ->].
        destruct Hout as [Hout|Hout]; [apply Hout; left | done].
      * destruct Hout as [Hout|Hout]; [left|by right].
        intros ?. apply Hout. by right.
Qed.

Lemma match_environment_text (name : string) (pd : gmap string (list json))
    (t : string) :
  match_environment (JStr name) pd t
  = Ok (if str_in t name then append_parameter t (JStr name) pd else pd).
Proof. unfold match_environment. simpl. by destruct (str_in t name). Qed.

Lemma match_environments_text (name : string) (envs : list string)
    (pd : gmap string (list json)) :
  ∃ pd', for_each (match_environment (JStr name)) envs pd = Ok pd'.
Proof.
  revert pd. induction envs as [|e envs IH]; intros pd; [by eexists|].
  simpl. rewrite match_environment_text. simpl. apply IH.
Qed.

Section SecretAccessIndex.
(** The tenant identifiers of interest. *)
Context (environment_ids : gset string).

Implicit Types (pd : gmap string (list json)) (e : event).

Lemma requested_parameter_record pd e (name : json) :
  requested_parameter e = Some name →
  get_parameter_step environment_ids pd e
  = for_each (match_environment name) (elements environment_ids) pd.
Proof.
  unfold requested_parameter, get_parameter_step, get_parameter_record.
  destruct (loads_CloudTrailEvent e) as [doc|?]; [simpl|done].
  destruct (py_getitem doc "eventName") as [ev|?]; [simpl|done].
  destruct (eq_text ev "GetParameter"); [|done].
  destruct (py_getitem doc "requestParameters") as [rp|?]; [simpl|done].
  destruct (py_getitem rp "name") as [n|?]; [simpl|done].
  intros [= ->].
  destruct (match_environments_outcome name (elements environment_ids) pd)
    as [[pd' ->]| ->]; done.
Qed.

Lemma get_parameter_step_other pd pd' e :
  requested_parameter e = None →
  get_parameter_step environment_ids pd e = Ok pd' → pd' = pd.
Proof.
  unfold requested_parameter, get_parameter_step, get_parameter_record.
  intros Hnone Hstep.
  apply except_continue_ok_inv in Hstep as [Hstep|]; [|done].
  destruct (loads_CloudTrailEvent e) as [doc|?]; [simpl in *|done].
  destruct (py_getitem doc "eventName") as [ev|?]; [simpl in *|done].
  destruct (eq_text ev "GetParameter"); [|congruence].
  destruct (py_getitem doc "requestParameters") as [rp|?]; [simpl in *|done].
  destruct (py_getitem rp "name") as [n|?]; [simpl in *|]; done.
Qed.

(** The effect of one secret-read record on the index: every tenant of
    interest whose identifier the name contains gets the name at the end
    of its list, every other list stays as it is. *)
Lemma read_record_appended (events : list event) e (name : string) pd :
  requested_parameter e = Some (JStr name) →
  find_get_parameter_events events environment_ids = Ok pd →
  ∃ pd', find_get_parameter_events (events ++ [e]) environment_ids = Ok pd' ∧
    ∀ t,
      (t ∈ environment_ids → str_in t name = true →
       pd' !! t = Some (default [] (pd !! t) ++ [JStr name])) ∧
      (t ∉ environment_ids ∨ str_in t name = false → pd' !! t = pd !! t).
Proof.
  intros Hread Hrun. unfold find_get_parameter_events in *.
  rewrite for_each_snoc, Hrun. simpl.
  rewrite (requested_parameter_record _ _ _ Hread).
  destruct (match_environments_text name (elements environment_ids) pd)
    as [pd' Hpd'].
  exists pd'. split; [done|]. intros t.
  destruct (match_environments_lookup _ _ _ _ t (NoDup_elements _) Hpd')
    as [Hin Hout].
  split.
  - intros Ht Hhit. apply Hin; [by apply elem_of_elements|].
    simpl. by rewrite Hhit.
  - intros Hno. apply Hout. destruct Hno as [Hno|Hno].
    + left. by rewrite elem_of_elements.
    + right. simpl. rewrite Hno. discriminate.
Qed.

Lemma get_parameter_step_invariant pd pd' e :
  index_invariant environment_ids pd →
  get_parameter_step environment_ids pd e = Ok pd' →
  index_invariant environment_ids pd'.
Proof.
  intros Hinv Hstep.
  destruct (requested_parameter e) as [name|] eqn:Hread.
  - rewrite (requested_parameter_record _ _ _ Hread) in Hstep.
    intros t names Hnames.
    destruct (match_environments_lookup _ _ _ _ t (NoDup_elements _) Hstep)
      as [Hin Hout].
    destruct (decide (t ∈ elements environment_ids)) as [Ht|Ht];
      [destruct (py_in t name) as [[]|err] eqn:Hhit|].
    + rewrite Hin in Hnames by done. injection Hnames as <-.
      split; [by apply elem_of_elements|].
      apply Forall_app. split; [|by apply Forall_singleton].
      destruct (pd !! t) as [old|] eqn:Hold; [|by apply Forall_nil].
      by apply (Hinv t old).
    + rewrite Hout in Hnames by (by right). by apply Hinv.
    + rewrite Hout in Hnames by (by right). by apply Hinv.
    + rewrite Hout in Hnames by (by left). by apply Hinv.
  - by rewrite (get_parameter_step_other _ _ _ Hread Hstep).
Qed.

Lemma find_get_parameter_events_invariant (events : list event) pd :
  find_get_parameter_events events environment_ids = Ok pd →
  index_invariant environment_ids pd.
Proof.
  apply (for_each_invariant (index_invariant environment_ids)).
  - intros s1 e s2 _. apply get_parameter_step_invariant.
  - intros t names Hnames. by rewrite lookup_empty in Hnames.
Qed.

(** C10. Soundness of the secret-access index: whenever
    [find_get_parameter_events] returns, every key of the mapping is one
    of the tenant identifiers it was given, and every name in the list of
    a tenant [t] contains [t] (Python's [in]); for a text name this means
    that [t] occurs in it as a substring. *)
Theorem index_sound (events : list event)
    (parameter_data : gmap string (list json)) (t : string)
    (names : list json) :
  find_get_parameter_events events environment_ids = Ok parameter_data →
  parameter_data !! t = Some names →
  t ∈ environment_ids ∧
  (∀ v, v ∈ names → py_in t v = Ok true) ∧
  (∀ name, JStr name ∈ names →
     str_in t name = true ∧ ∃ pre post, name = pre +:+ t +:+ post).
Proof.
  intros Hrun Hnames.
  destruct (find_get_parameter_events_invariant _ _ Hrun t names Hnames)
    as [Ht Hall].
  rewrite Forall_forall in Hall.
  split; [done|]. split; [done|].
  intros name Hname. specialize (Hall _ Hname). simpl in Hall.
  injection Hall as Hall. split; [done|]. by apply str_in_occurs.
Qed.

(** C8. The index is monotonic in record order: when the extractor has
    returned an index for a sequence of records, it also returns one for
    the sequence extended with a secret-read record, in which the list of
    every tenant of interest whose identifier the name contains is the
    previous list with the name at its end, and the entry of every other
    tenant is the previous one, so nothing is removed or reordered. *)
Theorem index_monotonic (events : list event) e (name : string)
    (parameter_data : gmap string (list json)) :
  requested_parameter e = Some (JStr name) →
  find_get_parameter_events events environment_ids = Ok parameter_data →
  ∃ parameter_data',
    find_get_parameter_events (events ++ [e]) environment_ids
      = Ok parameter_data' ∧
    ∀ t,
      (t ∈ environment_ids → str_in t name = true →
       parameter_data' !! t
         = Some (default [] (parameter_data !! t) ++ [JStr name])) ∧
      (t ∉ environment_ids ∨ str_in t name = false →
       parameter_data' !! t = parameter_data !! t).
Proof. apply read_record_appended. Qed.

(** C6. Fan-out: a secret-read record whose name contains two distinct
    tenant identifiers of interest adds the name once, at the end, to the
    list of each of the two tenants. *)
Theorem index_fan_out (events : list event) e (name : string)
    (parameter_data : gmap string (list json)) (t1 t2 : string) :
  requested_parameter e = Some (JStr name) →
  t1 ∈ environment_ids → t2 ∈ environment_ids → t1 ≠ t2 →
  str_in t1 name = true → str_in t2 name = true →
  find_get_parameter_events events environment_ids = Ok parameter_data →
  ∃ parameter_data',
    find_get_parameter_events (events ++ [e]) environment_ids
      = Ok parameter_data' ∧
    parameter_data' !! t1
      = Some (default [] (parameter_data !! t1) ++ [JStr name]) ∧
    parameter_data' !! t2
      = Some (default [] (parameter_data !! t2) ++ [JStr name]).
Proof.
  intros Hread Ht1 Ht2 _ Hin1 Hin2 Hrun.
  destruct (read_record_appended _ _ _ _ Hread Hrun) as (pd' & Hrun' & Hpd').
  exists pd'. split; [done|].
  split; [by apply (Hpd' t1) | by apply (Hpd' t2)].
Qed.
End SecretAccessIndex.

Lemma index_sound_witness :
  "envA" ∈ ({["envA"; "envB"]} : gset string) ∧
  (∀ v, v ∈ [JStr "/envA/db"; JStr "/envA/envB/db"] →
     py_in "envA" v = Ok true) ∧
  (∀ name, JStr name ∈ [JStr "/envA/db"; JStr "/envA/envB/db"] →
     str_in "envA" name = true ∧ ∃ pre post, name = pre +:+ "envA" +:+ post).
Proof.
  apply (index_sound {["envA"; "envB"]}
           [read_event "/envA/db"; read_event "/other"; read_event "/envA/envB/db"]
           {["envA" := [JStr "/envA/db"; JStr "/envA/envB/db"];
             "envB" := [JStr "/envA/envB/db"]]}).
  - vm_compute. reflexivity.
  - vm_compute. reflexivity.
Defined.

Lemma index_monotonic_witness :
  ∃ parameter_data',
    find_get_parameter_events
      ([read_event "/envA/db"; read_event "/envB/key"] ++ [read_event "/envA/api"])
      {["envA"; "envB"]} = Ok parameter_data' ∧
    ∀ t,
      (t ∈ ({["envA"; "envB"]} : gset string) → str_in t "/envA/api" = true →
       parameter_data' !! t
         = Some (default []
                   (({["envA" := [JStr "/envA/db"];
                       "envB" := [JStr "/envB/key"]]}
                       : gmap string (list json)) !! t)
                 ++ [JStr "/envA/api"])) ∧
      (t ∉ ({["envA"; "envB"]} : gset string) ∨ str_in t "/envA/api" = false →
       parameter_data' !! t
         = ({["envA" := [JStr "/envA/db"]; "envB" := [JStr "/envB/key"]]}
              : gmap string (list json)) !! t).
Proof.
  apply (index_monotonic {["envA"; "envB"]}
           [read_event "/envA/db"; read_event "/envB/key"]
           (read_event "/envA/api") "/envA/api").
  - reflexivity.
  - vm_compute. reflexivity.
Defined.

Lemma index_fan_out_witness :
  ∃ parameter_data',
    find_get_parameter_events
      ([read_event "/envA/db"] ++ [read_event "/envA/envB/db"])
      {["envA"; "envB"; "envC"]} = Ok parameter_data' ∧
    parameter_data' !! "envA"
      = Some (default []
                (({["envA" := [JStr "/envA/db"]]}
                    : gmap string (list json)) !! "envA")
              ++ [JStr "/envA/envB/db"]) ∧
    parameter_data' !! "envB"
      = Some (default []
                (({["envA" := [JStr "/envA/db"]]}
                    : gmap string (list json)) !! "envB")
              ++ [JStr "/envA/envB/db"]).
Proof.
  apply (index_fan_out {["envA"; "envB"; "envC"]}
           [read_event "/envA/db"] (read_event "/envA/envB/db")
           "/envA/envB/db").
  - reflexivity.
  - vm_compute. reflexivity.
  - vm_compute. reflexivity.
  - discriminate.
  - reflexivity.
  - reflexivity.
  - vm_compute. reflexivity.
Defined.

(** ** The correlation *)

Lemma text_set_texts (l : list string) :
  text_set (map JStr l) = Ok (list_to_set l).
Proof. induction l as [|x l IH]; [done|]. simpl. by rewrite IH. Qed.

Lemma py_any_total {A : Type} (test : A → res bool) (f : A → bool)
    (xs : list A) :
  (∀ x, x ∈ xs → test x = Ok (f x)) → py_any test xs = Ok (existsb f xs).
Proof.
  induction xs as [|x xs IH]; intros Htest; [done|]. simpl.
  rewrite (Htest x) by left. simpl. destruct (f x); [done|].
  apply IH. intros ??. apply Htest. by right.
Qed.

Lemma mentions_otherb_spec (tenants : gset string) (tenant name : string) :
  mentions_otherb tenants tenant name = true ↔ mentions_other tenants tenant name.
Proof.
  unfold mentions_otherb, mentions_other. rewrite existsb_exists. split.
  - intros (other & Hin & Hhit). apply andb_true_iff in Hhit as [Hhit Hne].
    exists other. rewrite <- elem_of_elements, list_elem_of_In.
    split; [done|]. split; [|done].
    apply negb_true_iff, bool_decide_eq_false in Hne. congruence.
  - intros (other & Hin & Hne & Hhit). exists other.
    rewrite <- list_elem_of_In, elem_of_elements. split; [done|].
    rewrite Hhit. simpl. apply negb_true_iff, bool_decide_eq_false. congruence.
Qed.

Lemma has_mismatch_texts (tenants : gset string) (tenant : string)
    (names : list string) :
  has_mismatch tenants (JStr tenant) (map JStr names)
  = Ok (existsb (mentions_otherb tenants tenant) names).
Proof.
  unfold has_mismatch.
  rewrite (py_any_total _ (λ v, match v with
                               | JStr name => mentions_otherb tenants tenant name
                               | _ => false
                               end)).
  - f_equal. induction names as [|n names IH]; [done|]. simpl. by rewrite IH.
  - intros v (name & -> & _)%list_elem_of_fmap.
    by apply py_any_total.
Qed.

Lemma secret_index_lookup (index : gmap string (list string)) (t : string) :
  secret_index index !! t = map JStr <$> index !! t.
Proof. unfold secret_index. apply lookup_fmap. Qed.

Lemma printed_cons (tenants : gset string) (index : gmap string (list string))
    (fact : string * (string * string))
    (facts : list (string * (string * string))) :
  printed tenants index (fact :: facts)
  = (if existsb (mentions_otherb tenants fact.2.2) (accessed index fact.2.2)
     then [verdict_of index fact] else [])
    ++ printed tenants index facts.
Proof.
  unfold printed. rewrite filter_cons.
  destruct (existsb _ _); [by rewrite decide_True | by rewrite decide_False].
Qed.

Lemma analyze_instance_text (tenants : gset string)
    (index : gmap string (list string)) (fact : string * (string * string))
    (state : list verdict * nat) :
  analyze_instance tenants (secret_index index) state
    (fact.1, (JStr fact.2.1, JStr fact.2.2))
  = Ok (if existsb (mentions_otherb tenants fact.2.2) (accessed index fact.2.2)
        then (state.1 ++ [verdict_of index fact], S state.2)
        else state).
Proof.
  destruct fact as [id [arn tenant]]. unfold analyze_instance. simpl.
  rewrite secret_index_lookup. unfold verdict_of, accessed. simpl.
  destruct (index !! tenant) as [names|]; simpl; [|done].
  rewrite has_mismatch_texts. simpl. by destruct (existsb _ _).
Qed.

Lemma analyze_instance_texts (tenants : gset string)
    (index : gmap string (list string)) (facts : list (string * (string * string)))
    (state : list verdict * nat) :
  for_each (analyze_instance tenants (secret_index index)) (launch_facts facts)
    state
  = Ok (state.1 ++ printed tenants index facts,
        state.2 + List.length (printed tenants index facts)).
Proof.
  revert state. induction facts as [|fact facts IH]; intros state.
  - simpl. rewrite app_nil_r, Nat.add_0_r. by destruct state.
  - rewrite printed_cons.
    change (launch_facts (fact :: facts))
      with ((fact.1, (JStr fact.2.1, JStr fact.2.2)) :: launch_facts facts).
    cbn [for_each]. rewrite analyze_instance_text. cbn [mbind res_bind].
    rewrite IH. destruct (existsb _ _); simpl.
    + rewrite <- app_assoc. simpl. do 2 f_equal. lia.
    + done.
Qed.

Lemma correlate_texts (facts : list (string * (string * string)))
    (index : gmap string (list string)) :
  correlate (launch_facts facts) (secret_index index)
  = Ok (Report (printed (tenant_ids facts) index facts)
          (match printed (tenant_ids facts) index facts with
           | [] => NotExploited
           | vs => FoundMismatched (List.length vs)
           end)).
Proof.
  unfold correlate, launch_facts. rewrite map_map. simpl.
  rewrite <- (map_map (λ fact, fact.2.2) JStr), text_set_texts. simpl.
  fold (launch_facts facts). fold (tenant_ids facts).
  unfold analyze_vulnerability_usage. rewrite analyze_instance_texts. simpl.
  by destruct (printed (tenant_ids facts) index facts).
Qed.

Lemma printed_elem (tenants : gset string) (index : gmap string (list string))
    (facts : list (string * (string * string))) (v : verdict) :
  v ∈ printed tenants index facts ↔
  ∃ fact, fact ∈ facts ∧ v = verdict_of index fact ∧
    ∃ name, name ∈ accessed index fact.2.2 ∧ mentions_other tenants fact.2.2 name.
Proof.
  unfold printed. rewrite list_elem_of_fmap.
  setoid_rewrite list_elem_of_filter. setoid_rewrite existsb_exists.
  setoid_rewrite mentions_otherb_spec. setoid_rewrite <- list_elem_of_In.
  split.
  - intros (fact & -> & Hname & Hin). by exists fact.
  - intros (fact & Hin & -> & Hname). by exists fact.
Qed.

(** C1. On launch facts with one fact for each instance and on any index,
    the correlation returns a report in which an instance is flagged if and
    only if a secret name in the access list of its own tenant contains the
    identifier of a different tenant (one of the tenants of the launch
    facts), and the run-level flag is raised if and only if some instance
    is flagged. *)
Theorem correlate_flags (facts : list (string * (string * string)))
    (index : gmap string (list string)) :
  NoDup (facts.*1) →
  ∃ r, correlate (launch_facts facts) (secret_index index) = Ok r ∧
    (∀ id arn tenant, (id, (arn, tenant)) ∈ facts →
       flagged r id ↔
       ∃ name, name ∈ accessed index tenant ∧
               mentions_other (tenant_ids facts) tenant name) ∧
    (exploited r = true ↔ ∃ id, flagged r id).
Proof.
  intros Hnodup. eexists. split; [apply correlate_texts|].
  unfold flagged. simpl. split.
  - intros id arn tenant Hfact. setoid_rewrite printed_elem. split.
    + intros (v & (fact & Hin & -> & Hname) & Hid).
      destruct fact as [id' [arn' tenant']]. simpl in *. subst id'.
      pose proof (unique_keys_functional _ _ _ _ Hnodup Hfact Hin) as Heq.
      by injection Heq as -> ->.
    + intros Hname. exists (verdict_of index (id, (arn, tenant))).
      split; [|done]. by exists (id, (arn, tenant)).
  - unfold exploited. simpl.
    destruct (printed (tenant_ids facts) index facts) as [|v vs].
    + split; [done|]. by intros (id & v & ?%elem_of_nil & _).
    + split; [|done]. intros _. exists (instance_id v), v. split; [left|done].
Qed.

Lemma correlate_flags_witness :
  ∃ r, correlate (launch_facts three_tenants) (secret_index three_tenants_index)
       = Ok r ∧
    (∀ id arn tenant, (id, (arn, tenant)) ∈ three_tenants →
       flagged r id ↔
       ∃ name, name ∈ accessed three_tenants_index tenant ∧
               mentions_other (tenant_ids three_tenants) tenant name) ∧
    (exploited r = true ↔ ∃ id, flagged r id).
Proof.
  apply (correlate_flags three_tenants three_tenants_index).
  apply (bool_decide_unpack _). vm_compute. exact I.
Defined.

(** C2, as stated, fails.  With three tenants, the first of which has read
    ["/envA/own"] and ["/envA/envB/envC"], the verdict of instance [i-1]
    lists both names once each: ["/envA/own"] is listed although it
    contains no identifier of another tenant, and ["/envA/envB/envC"] is
    listed once although it contains two. *)
Lemma verdict_calls_counterexample :
  correlate (launch_facts three_tenants) (secret_index three_tenants_index)
  = Ok (Report
          [Verdict "i-1" (JStr "role-1") (JStr "envA")
             [JStr "/envA/own"; JStr "/envA/envB/envC"]]
          (FoundMismatched 1)) ∧
  mentions_otherb (tenant_ids three_tenants) "envA" "/envA/own" = false ∧
  spec_mismatched_names (tenant_ids three_tenants) "envA"
    (accessed three_tenants_index "envA")
  = ["/envA/envB/envC"; "/envA/envB/envC"] ∧
  [JStr "/envA/own"; JStr "/envA/envB/envC"]
  ≠ map JStr (spec_mismatched_names (tenant_ids three_tenants) "envA"
                (accessed three_tenants_index "envA")).
Proof. repeat split; vm_compute; (reflexivity || discriminate). Qed.

(** C2, amended. For every flagged instance, the names of its verdict that
    contain the identifier of a different tenant are exactly the accessed
    names of its tenant that do, in the order of the access list and with
    one entry for each occurrence in the access list (not one for each
    identifier a name contains). *)
Theorem verdict_calls (facts : list (string * (string * string)))
    (index : gmap string (list string)) (r : report) (v : verdict) :
  correlate (launch_facts facts) (secret_index index) = Ok r →
  v ∈ verdicts r →
  ∃ arn tenant calls,
    (instance_id v, (arn, tenant)) ∈ facts ∧
    environment_id v = JStr tenant ∧
    mismatched_calls v = map JStr calls ∧
    mismatched (tenant_ids facts) tenant calls
    = mismatched (tenant_ids facts) tenant (accessed index tenant) ∧
    mismatched (tenant_ids facts) tenant calls ≠ [].
Proof.
  rewrite correlate_texts. intros [= <-]. simpl.
  intros ([id [arn tenant]] & Hin & -> & name & Hname & Hother)%printed_elem.
  exists arn, tenant, (accessed index tenant). simpl.
  repeat split; try done.
  intros Hnone. assert (name ∈ mismatched (tenant_ids facts) tenant
                                 (accessed index tenant)) as Hmem.
  { unfold mismatched. apply list_elem_of_In, filter_In.
    split; [by apply list_elem_of_In | by apply mentions_otherb_spec]. }
  rewrite Hnone in Hmem. by apply elem_of_nil in Hmem.
Qed.

Lemma verdict_calls_witness :
  ∃ arn tenant calls,
    (instance_id (Verdict "i-1" (JStr "role-1") (JStr "envA")
                    [JStr "/envA/own"; JStr "/envA/envB/envC"]),
     (arn, tenant)) ∈ three_tenants ∧
    environment_id (Verdict "i-1" (JStr "role-1") (JStr "envA")
                      [JStr "/envA/own"; JStr "/envA/envB/envC"])
    = JStr tenant ∧
    mismatched_calls (Verdict "i-1" (JStr "role-1") (JStr "envA")
                        [JStr "/envA/own"; JStr "/envA/envB/envC"])
    = map JStr calls ∧
    mismatched (tenant_ids three_tenants) tenant calls
    = mismatched (tenant_ids three_tenants) tenant
        (accessed three_tenants_index tenant) ∧
    mismatched (tenant_ids three_tenants) tenant calls ≠ [].
Proof.
  apply (verdict_calls three_tenants three_tenants_index
           (Report
              [Verdict "i-1" (JStr "role-1") (JStr "envA")
                 [JStr "/envA/own"; JStr "/envA/envB/envC"]]
              (FoundMismatched 1))).
  - vm_compute. reflexivity.
  - simpl. left.
Defined.

(** ** The run as a whole *)

Lemma load_json_file_raises (files : string → file) (filename : string)
    (e : exn) :
  load_json_file files filename = Raise e →
  e = FileNotFoundError ∨ e = JSONDecodeError.
Proof.
  unfold load_json_file. destruct (files filename); intros [= <-]; auto.
Qed.

(** A run that completes reports the correlation of the launch facts with
    the index; the assumption facts are computed and dropped. *)
Lemma analyze_ok_inv (files : string → file) (r : report) :
  analyze files = Ok r →
  ∃ run_instances_events get_parameter_events instance_data profile_arns
    environment_ids parameter_data,
    files RUN_INSTANCES_FILE = Holds run_instances_events ∧
    files GET_PARAMETER_FILE = Holds get_parameter_events ∧
    extract_run_instances_data run_instances_events = Ok instance_data ∧
    text_set (map (λ item, item.2.1) instance_data) = Ok profile_arns ∧
    text_set (map (λ item, item.2.2) instance_data) = Ok environment_ids ∧
    find_get_parameter_events get_parameter_events environment_ids
      = Ok parameter_data ∧
    analyze_vulnerability_usage instance_data environment_ids parameter_data
      = Ok r.
Proof.
  unfold analyze, load_json_file. intros Hrun.
  destruct (files RUN_INSTANCES_FILE) as [| |run] eqn:Hfile1; try done.
  destruct (files ASSUME_ROLE_FILE) as [| |assume]; try done.
  destruct (files GET_PARAMETER_FILE) as [| |getp] eqn:Hfile3; try done.
  simpl in Hrun.
  bind_inv Hrun as instance_data Hextract.
  bind_inv Hrun as profile_arns Harns.
  bind_inv Hrun as environment_ids Hids.
  bind_inv Hrun as assume_role_data Hassume.
  bind_inv Hrun as parameter_data Hindex.
  by exists run, getp, instance_data, profile_arns, environment_ids,
    parameter_data.
Qed.


(** In a run that completes, the launch facts are texts throughout and
    there is one for each instance id. *)
Lemma completed_run_facts (files : string → file) (r : report) :
  analyze files = Ok r →
  ∃ facts, launch_facts_of files = Ok (launch_facts facts) ∧ NoDup (facts.*1).
Proof.
  intros (run & getp & data & arns & ids & pd & Hf & _ & He & Ha & Hi & _)
    %analyze_ok_inv.
  destruct (hashable_launch_facts data arns ids) as (facts & -> & _);
    [|done|done|].
  { intros id arn env Hin.
    by destruct (extract_values_truthy _ _ _ _ _ He Hin) as (_ & ? & ?). }
  exists facts. unfold launch_facts_of, load_json_file. rewrite Hf. simpl.
  split; [done|].
  apply extract_keys_unique in He. unfold launch_facts in He.
  by rewrite <- list_fmap_compose in He.
Qed.

(** Other role-assumption records can make the run fail, in the extractor
    that reads them, and change nothing else. *)
Lemma analyze_other_assumptions (files1 files2 : string → file) (r : report)
    (assume_role_events : list event) :
  files1 RUN_INSTANCES_FILE = files2 RUN_INSTANCES_FILE →
  files1 GET_PARAMETER_FILE = files2 GET_PARAMETER_FILE →
  files2 ASSUME_ROLE_FILE = Holds assume_role_events →
  (∀ profile_arns,
     ∃ data, find_assume_role_events assume_role_events profile_arns = Ok data) →
  analyze files1 = Ok r → analyze files2 = Ok r.
Proof.
  intros Hsame_run Hsame_read Hassume Hextract Hrun.
  unfold analyze, load_json_file in *.
  rewrite <- Hsame_run, <- Hsame_read, Hassume.
  destruct (files1 RUN_INSTANCES_FILE) as [| |run]; try done.
  destruct (files1 ASSUME_ROLE_FILE) as [| |assume]; try done.
  destruct (files1 GET_PARAMETER_FILE) as [| |getp]; try done.
  cbn [mbind res_bind] in *.
  apply bind_ok_inv in Hrun as (data & -> & Hrun). cbn [mbind res_bind].
  apply bind_ok_inv in Hrun as (arns & -> & Hrun). cbn [mbind res_bind].
  apply bind_ok_inv in Hrun as (ids & -> & Hrun). cbn [mbind res_bind].
  bind_inv Hrun as d1 Hassume1.
  destruct (Hextract arns) as [d2 ->]. done.
Qed.




(** C4, as stated, fails for a collection that is present and empty: with
    launch and role-assumption records at hand and an empty secret-read
    collection, and also with all three collections empty, [analyze]
    completes and prints that the vulnerability has not been exploited. *)
Lemma analyze_empty_counterexample :
  analyze (directory (Holds two_launches)
             (Holds [assume_event "role-1" "token-1" "key-1"]) (Holds []))
  = Ok (Report [] NotExploited) ∧
  analyze (directory (Holds []) (Holds []) (Holds []))
  = Ok (Report [] NotExploited).
Proof. split; vm_compute; reflexivity. Qed.

(** C4, amended. If any one of the three event files is absent, [analyze]
    aborts with an exception raised by the loader and produces no report. *)
Theorem analyze_absent_file (files : string → file) :
  files RUN_INSTANCES_FILE = NoFile ∨
  files ASSUME_ROLE_FILE = NoFile ∨
  files GET_PARAMETER_FILE = NoFile →
  ∃ e, analyze files = Raise e ∧
       (e = FileNotFoundError ∨ e = JSONDecodeError) ∧
       ((∀ filename, files filename ≠ NotJson) → e = FileNotFoundError).
Proof.
  intros Habsent. unfold analyze.
  destruct (load_json_file files RUN_INSTANCES_FILE) as [run|e1] eqn:H1.
  2: { exists e1. split; [done|]. split; [by eapply load_json_file_raises|].
       intros Hjson. unfold load_json_file in H1.
       specialize (Hjson RUN_INSTANCES_FILE).
       destruct (files RUN_INSTANCES_FILE); congruence. }
  destruct (load_json_file files ASSUME_ROLE_FILE) as [assume|e2] eqn:H2.
  2: { exists e2. split; [done|]. split; [by eapply load_json_file_raises|].
       intros Hjson. unfold load_json_file in H2.
       specialize (Hjson ASSUME_ROLE_FILE).
       destruct (files ASSUME_ROLE_FILE); congruence. }
  destruct (load_json_file files GET_PARAMETER_FILE) as [getp|e3] eqn:H3.
  2: { exists e3. split; [done|]. split; [by eapply load_json_file_raises|].
       intros Hjson. unfold load_json_file in H3.
       specialize (Hjson GET_PARAMETER_FILE).
       destruct (files GET_PARAMETER_FILE); congruence. }
  unfold load_json_file in H1, H2, H3.
  destruct Habsent as [Hno|[Hno|Hno]]; rewrite Hno in *; discriminate.
Qed.

Lemma analyze_absent_file_witness :
  ∃ e, analyze (directory (Holds two_launches) (Holds []) NoFile) = Raise e ∧
       (e = FileNotFoundError ∨ e = JSONDecodeError) ∧
       ((∀ filename,
           directory (Holds two_launches) (Holds []) NoFile filename ≠ NotJson) →
        e = FileNotFoundError).
Proof.
  apply (analyze_absent_file (directory (Holds two_launches) (Holds []) NoFile)).
  right. right. reflexivity.
Defined.

(** ** Filtering by event name *)

(** The secret-access extractor passes over a record that has another
    event name. *)
Lemma get_parameter_step_other_name (environment_ids : gset string)
    (pd : gmap string (list json)) (e : event) (name : json) :
  event_name e = Some name → eq_text name "GetParameter" = false →
  get_parameter_step environment_ids pd e = Ok pd.
Proof.
  unfold event_name, get_parameter_step, get_parameter_record.
  destruct (loads_CloudTrailEvent e) as [doc|]; [simpl|done].
  destruct (py_getitem doc "eventName") as [name'|]; [simpl|done].
  by intros [= ->] ->.
Qed.

(** So does the role-assumption extractor. *)
Lemma assume_role_step_other_name (profile_arns : gset string)
    (data : gmap (option string) json) (e : event) (name : json) :
  event_name e = Some name → eq_text name "AssumeRole" = false →
  assume_role_step profile_arns data e = Ok data.
Proof.
  unfold event_name, assume_role_step, assume_role_record.
  destruct (loads_CloudTrailEvent e) as [doc|]; [simpl|done].
  destruct (py_getitem doc "eventName") as [name'|]; [simpl|done].
  by intros [= ->] ->.
Qed.

Lemma find_get_parameter_events_other_names (events : list event)
    (environment_ids : gset string) :
  Forall (λ e, ∃ name, event_name e = Some name ∧
                       eq_text name "GetParameter" = false) events →
  find_get_parameter_events events environment_ids = Ok ∅.
Proof.
  unfold find_get_parameter_events. generalize (∅ : gmap string (list json)).
  induction 1 as [|e events (name & Hname & Hother) _ IH]; [done|].
  simpl. by rewrite (get_parameter_step_other_name _ _ _ _ Hname Hother).
Qed.

Lemma find_assume_role_events_other_names (events : list event)
    (profile_arns : gset string) :
  Forall (λ e, ∃ name, event_name e = Some name ∧
                       eq_text name "AssumeRole" = false) events →
  find_assume_role_events events profile_arns = Ok ∅.
Proof.
  unfold find_assume_role_events. generalize (∅ : gmap (option string) json).
  induction 1 as [|e events (name & Hname & Hother) _ IH]; [done|].
  simpl. by rewrite (assume_role_step_other_name _ _ _ _ Hname Hother).
Qed.

(** C3 does not hold of the launch extractor, which never reads the event
    name: a record with the body of a launch yields a launch fact under any
    event name, for instance under ["StartInstances"].  The other two
    extractors do filter ([find_get_parameter_events_other_names],
    [find_assume_role_events_other_names]). *)
Theorem launch_extractor_ignores_event_name (name : string) :
  event_name (launch_event name "i-1" "role-1" "envA") = Some (JStr name) ∧
  extract_run_instances_data [launch_event name "i-1" "role-1" "envA"]
  = Ok [("i-1", (JStr "role-1", JStr "envA"))].
Proof. split; reflexivity. Qed.

(** * Further properties of the extractors *)

(** ** Records that cannot be decoded *)

(** X1. A record without [CloudTrailEvent] member, or whose text the
    decoder rejects with [json.JSONDecodeError], is passed over by each of
    the three extractors: the batch gives what it gives without the record,
    be it a result or an exception.  These are the two exceptions that the
    handlers name; a text on which the decoder raises another one is not
    passed over ([unreadable_record_aborts]). *)
Theorem undecodable_record_skipped (before after : list event) (e : event)
    (profile_arns environment_ids : gset string) :
  CloudTrailEvent e = Missing ∨ CloudTrailEvent e = Malformed →
  extract_run_instances_data (before ++ e :: after)
  = extract_run_instances_data (before ++ after) ∧
  find_assume_role_events (before ++ e :: after) profile_arns
  = find_assume_role_events (before ++ after) profile_arns ∧
  find_get_parameter_events (before ++ e :: after) environment_ids
  = find_get_parameter_events (before ++ after) environment_ids.
Proof.
  intros Hbad.
  assert (loads_CloudTrailEvent e = Raise KeyError ∨
          loads_CloudTrailEvent e = Raise JSONDecodeError) as Hloads.
  { unfold loads_CloudTrailEvent. destruct Hbad as [-> | ->]; auto. }
  repeat split; apply for_each_skip; intros s.
  - unfold run_instances_step, run_instances_record.
    by destruct Hloads as [-> | ->].
  - unfold assume_role_step, assume_role_record.
    by destruct Hloads as [-> | ->].
  - unfold get_parameter_step, get_parameter_record.
    by destruct Hloads as [-> | ->].
Qed.

Lemma undecodable_record_skipped_witness :
  extract_run_instances_data
    ([launch_event "RunInstances" "i-1" "role-1" "envA"] ++ Event Malformed
     :: [launch_event "RunInstances" "i-2" "role-2" "envB"])
  = extract_run_instances_data
      ([launch_event "RunInstances" "i-1" "role-1" "envA"]
       ++ [launch_event "RunInstances" "i-2" "role-2" "envB"]) ∧
  find_assume_role_events
    ([launch_event "RunInstances" "i-1" "role-1" "envA"] ++ Event Malformed
     :: [launch_event "RunInstances" "i-2" "role-2" "envB"]) {["role-1"]}
  = find_assume_role_events
      ([launch_event "RunInstances" "i-1" "role-1" "envA"]
       ++ [launch_event "RunInstances" "i-2" "role-2" "envB"]) {["role-1"]} ∧
  find_get_parameter_events
    ([launch_event "RunInstances" "i-1" "role-1" "envA"] ++ Event Malformed
     :: [launch_event "RunInstances" "i-2" "role-2" "envB"]) {["envA"]}
  = find_get_parameter_events
      ([launch_event "RunInstances" "i-1" "role-1" "envA"]
       ++ [launch_event "RunInstances" "i-2" "role-2" "envB"]) {["envA"]}.
Proof.
  apply (undecodable_record_skipped
           [launch_event "RunInstances" "i-1" "role-1" "envA"]
           [launch_event "RunInstances" "i-2" "role-2" "envB"]
           (Event Malformed)).
  right. reflexivity.
Defined.

(** A record whose member is not a text, or on whose text the decoder
    gives up with [RecursionError], is not passed over: once the records
    before it are through, the exception leaves each of the three
    extractors and the batch is lost. *)
Lemma unreadable_record_aborts (before after : list event) (e : event)
    (err : exn) (profile_arns environment_ids : gset string) :
  (CloudTrailEvent e = NotText ∧ err = TypeError) ∨
  (CloudTrailEvent e = TooDeep ∧ err = RecursionError) →
  ((∃ data, extract_run_instances_data before = Ok data) →
   extract_run_instances_data (before ++ e :: after) = Raise err) ∧
  ((∃ data, find_assume_role_events before profile_arns = Ok data) →
   find_assume_role_events (before ++ e :: after) profile_arns = Raise err) ∧
  ((∃ data, find_get_parameter_events before environment_ids = Ok data) →
   find_get_parameter_events (before ++ e :: after) environment_ids
   = Raise err).
Proof.
  intros Hbad.
  assert (loads_CloudTrailEvent e = Raise err ∧
          err ≠ KeyError ∧ err ≠ JSONDecodeError) as (Hloads & Hk & Hj).
  { unfold loads_CloudTrailEvent.
    by destruct Hbad as [[-> ->] | [-> ->]]. }
  repeat split; intros [s Hs]; apply for_each_abort with (s1 := s);
    try done; intros s'.
  - unfold run_instances_step, run_instances_record. rewrite Hloads.
    by destruct err.
  - unfold assume_role_step, assume_role_record. rewrite Hloads.
    by destruct err.
  - unfold get_parameter_step, get_parameter_record. rewrite Hloads.
    by destruct err.
Qed.

Example too_deep_record_raises :
  extract_run_instances_data
    [launch_event "RunInstances" "i-1" "role-1" "envA"; Event TooDeep;
     launch_event "RunInstances" "i-2" "role-2" "envB"]
  = Raise RecursionError.
Proof. reflexivity. Qed.

(** ** What a launch record contributes *)

Lemma run_instances_record_instance (e : event) (instance : json) :
  first_instance e = Some instance →
  run_instances_record e
  = if truthy instance then instance_record instance else Ok None.
Proof.
  unfold first_instance, run_instances_record, instance_record, instance_tags.
  destruct (loads_CloudTrailEvent e) as [doc|]; [simpl|done].
  destruct (py_get doc "responseElements") as [re|] eqn:Hre; [simpl|done].
  destruct (py_get re "instancesSet") as [iset|] eqn:Hset; [simpl|done].
  destruct (py_get iset "items") as [items|] eqn:Hitems; [simpl|done].
  destruct (py_first items) as [instance'|] eqn:Hfirst; [simpl|done].
  intros [= ->].
  assert (truthy items = true) as ->.
  { by destruct items as [|[|??]|[|??]|]. }
  assert (truthy iset = true) as ->.
  { destruct iset as [| | |[|??]]; try done. simpl in Hitems.
    injection Hitems as <-. done. }
  assert (truthy re = true) as ->.
  { destruct re as [| | |[|??]]; try done. simpl in Hset.
    injection Hset as <-. done. }
  simpl. destruct (truthy instance); [simpl|done].
  destruct (py_get instance "instanceId") as [instance_id|]; [simpl|done].
  destruct (truthy instance_id); [simpl|done].
  destruct (py_get instance "iamInstanceProfile") as [iam_profile|];
    [simpl|done].
  destruct (truthy iam_profile); [simpl|done].
  destruct (py_get iam_profile "arn") as [profile_arn|]; [simpl|done].
  destruct (py_get iam_profile "id") as [profile_id|]; [simpl|done].
  destruct (py_get_default instance "tagSet" (JObj [])) as [tag_set|];
    [simpl|done].
  by destruct (py_get_default tag_set "items" (JArr [])) as [tags|].
Qed.

(** X2. What a launch record does to the batch (store a fact, pass, or
    raise) is decided by its first instance item alone: two records with
    the same first item are treated alike, so the other instances of a
    launch of several are never recorded. *)
Theorem launch_decided_by_first_instance (e1 e2 : event) (instance : json)
    (instance_data : list (string * (json * json))) :
  first_instance e1 = Some instance →
  first_instance e2 = Some instance →
  run_instances_step instance_data e1 = run_instances_step instance_data e2.
Proof.
  intros H1 H2. unfold run_instances_step.
  by rewrite (run_instances_record_instance _ _ H1),
    (run_instances_record_instance _ _ H2).
Qed.

Lemma launch_decided_by_first_instance_witness :
  run_instances_step []
    (launch_of_items
       [instance_item "i-1" "role-1" [tag_item ENVIRONMENT_TAG "envA"];
        instance_item "i-2" "role-1" [tag_item ENVIRONMENT_TAG "envA"]])
  = run_instances_step []
      (launch_of_items
         [instance_item "i-1" "role-1" [tag_item ENVIRONMENT_TAG "envA"]]).
Proof.
  apply (launch_decided_by_first_instance _ _
           (instance_item "i-1" "role-1" [tag_item ENVIRONMENT_TAG "envA"]));
    reflexivity.
Defined.

Lemma first_environment_tag_split (tags : list json) (env : json) :
  first_environment_tag tags = Ok env → truthy env = true →
  ∃ before tag after,
    tags = before ++ tag :: after ∧
    existsb is_environment_tag before = false ∧
    is_environment_tag tag = true ∧
    py_getitem tag "value" = Ok env.
Proof.
  induction tags as [|tag tags IH]; simpl.
  - by intros [= <-].
  - intros Hfind Htruthy. bind_inv Hfind as key Hkey.
    destruct (eq_text key ENVIRONMENT_TAG) eqn:Heq.
    + exists [], tag, tags. unfold is_environment_tag. by rewrite Hkey.
    + destruct (IH Hfind Htruthy) as (before & tag' & after & -> & Hb & Ht & Hv).
      exists (tag :: before), tag', after. split; [done|]. simpl.
      unfold is_environment_tag at 1. by rewrite Hkey, Heq.
Qed.

(** X3. The fact stored for a launch record is read off its first instance
    item without any change: the key is the [instanceId] member, the ARN is
    the [arn] member of the profile, and the tenant is the [value] of the
    first tag whose key is the environment tag, whatever later tags say. *)
Theorem launch_fact_exact (e : event) (instance : json) (tags : list json)
    (id : string) (arn env : json) :
  first_instance e = Some instance →
  instance_tags instance = Ok tags →
  launch_fact e = Some (id, (arn, env)) →
  py_get instance "instanceId" = Ok (JStr id) ∧
  (∃ iam_profile, py_get instance "iamInstanceProfile" = Ok iam_profile ∧
                  py_get iam_profile "arn" = Ok arn) ∧
  ∃ before tag after,
    tags = before ++ tag :: after ∧
    existsb is_environment_tag before = false ∧
    is_environment_tag tag = true ∧
    py_getitem tag "value" = Ok env.
Proof.
  intros Hfirst Htags. unfold launch_fact.
  rewrite (run_instances_record_instance _ _ Hfirst).
  destruct (truthy instance); [|done].
  unfold instance_record. rewrite Htags.
  destruct (py_get instance "instanceId") as [instance_id|]; [simpl|done].
  destruct (truthy instance_id) eqn:Hid; [simpl|done].
  destruct (py_get instance "iamInstanceProfile") as [iam_profile|];
    [simpl|done].
  destruct (truthy iam_profile); [simpl|done].
  destruct (py_get iam_profile "arn") as [profile_arn|] eqn:Harn; [simpl|done].
  destruct (py_get iam_profile "id") as [profile_id|]; [simpl|done].
  destruct (first_environment_tag tags) as [environment_id|] eqn:Henv;
    [simpl|done].
  destruct (truthy profile_arn); [simpl|done].
  destruct (truthy environment_id) eqn:Htruthy; [simpl|done].
  destruct instance_id as [|text| |]; try done. simpl.
  intros [= -> -> ->]. split; [done|]. split; [by exists iam_profile|].
  by apply first_environment_tag_split.
Qed.

Lemma launch_fact_exact_witness :
  py_get (instance_item "i-1" "role-1"
            [tag_item "Name" "runner"; tag_item ENVIRONMENT_TAG "envA";
             tag_item ENVIRONMENT_TAG "envB"]) "instanceId"
  = Ok (JStr "i-1") ∧
  (∃ iam_profile,
     py_get (instance_item "i-1" "role-1"
               [tag_item "Name" "runner"; tag_item ENVIRONMENT_TAG "envA";
                tag_item ENVIRONMENT_TAG "envB"]) "iamInstanceProfile"
     = Ok iam_profile ∧
     py_get iam_profile "arn" = Ok (JStr "role-1")) ∧
  ∃ before tag after,
    [tag_item "Name" "runner"; tag_item ENVIRONMENT_TAG "envA";
     tag_item ENVIRONMENT_TAG "envB"] = before ++ tag :: after ∧
    existsb is_environment_tag before = false ∧
    is_environment_tag tag = true ∧
    py_getitem tag "value" = Ok (JStr "envA").
Proof.
  apply (launch_fact_exact
           (launch_of_items
              [instance_item "i-1" "role-1"
                 [tag_item "Name" "runner"; tag_item ENVIRONMENT_TAG "envA";
                  tag_item ENVIRONMENT_TAG "envB"]])); reflexivity.
Defined.

(** ** The mapping as a whole *)

Lemma facts_for_cons (id : string) (e : event) (events : list event) :
  facts_for id (e :: events)
  = match launch_fact e with
    | Some (id', data) =>
        if decide (id' = id) then data :: facts_for id events
        else facts_for id events
    | None => facts_for id events
    end.
Proof.
  unfold facts_for. simpl. destruct (launch_fact e) as [[id' data]|]; [|done].
  by destruct (decide (id' = id)).
Qed.

Lemma run_instances_loop_lookup (events : list event) (id : string)
    (m0 m : list (string * (json * json))) :
  for_each run_instances_step events m0 = Ok m →
  dict_get id m = match last (facts_for id events) with
                  | Some data => Some data
                  | None => dict_get id m0
                  end.
Proof.
  revert m0. induction events as [|e events IH]; intros m0 Hrun.
  - by injection Hrun as <-.
  - simpl in Hrun. bind_inv Hrun as m1 Hstep.
    apply run_instances_step_ok_inv in Hstep.
    rewrite (IH _ Hrun), facts_for_cons.
    destruct (launch_fact e) as [[id' data]|]; subst m1; [|done].
    rewrite dict_get_set.
    destruct (decide (id' = id)) as [->|Hne].
    + rewrite decide_True by done. rewrite last_cons.
      by destruct (last (facts_for id events)).
    + by rewrite decide_False by done.
Qed.

(** X4. Whenever the launch extractor returns, the entry of an instance id
    is the fact of the last record of the batch that yields one for this
    id, and an id for which no record yields a fact has no entry. *)
Theorem extract_lookup (events : list event)
    (m : list (string * (json * json))) (id : string) :
  extract_run_instances_data events = Ok m →
  dict_get id m = last (facts_for id events).
Proof.
  intros Hrun. rewrite (run_instances_loop_lookup _ id _ _ Hrun).
  by destruct (last (facts_for id events)).
Qed.

Lemma extract_lookup_witness :
  dict_get "i-2" [("i-1", (JStr "role-3", JStr "envC"));
                  ("i-2", (JStr "role-2", JStr "envB"))]
  = last (facts_for "i-2"
            [launch_event "RunInstances" "i-1" "role-1" "envA";
             launch_event "RunInstances" "i-2" "role-2" "envB";
             failed_launch;
             launch_event "RunInstances" "i-1" "role-3" "envC"]).
Proof.
  apply (extract_lookup
           [launch_event "RunInstances" "i-1" "role-1" "envA";
            launch_event "RunInstances" "i-2" "role-2" "envB";
            failed_launch;
            launch_event "RunInstances" "i-1" "role-3" "envC"]).
  reflexivity.
Defined.

(** ** The content of the secret-access index *)

Lemma contains_true (t : string) (v : json) :
  contains t v = true ↔ py_in t v = Ok true.
Proof.
  unfold contains. destruct (py_in t v) as [[]|]; split; congruence.
Qed.

Lemma requested_names_cons (e : event) (events : list event) :
  requested_names (e :: events)
  = match requested_parameter e with
    | Some name => name :: requested_names events
    | None => requested_names events
    end.
Proof. unfold requested_names. simpl. by destruct (requested_parameter e). Qed.

Lemma get_parameter_loop_content (environment_ids : gset string)
    (events : list event) (pd0 pd : gmap string (list json)) (t : string) :
  t ∈ environment_ids →
  for_each (get_parameter_step environment_ids) events pd0 = Ok pd →
  pd !! t
  = match filter (λ v, contains t v = true) (requested_names events) with
    | [] => pd0 !! t
    | names => Some (default [] (pd0 !! t) ++ names)
    end.
Proof.
  intros Ht. revert pd0. induction events as [|e events IH]; intros pd0 Hrun.
  - by injection Hrun as <-.
  - simpl in Hrun. bind_inv Hrun as pd1 Hstep.
    rewrite (IH _ Hrun), requested_names_cons.
    destruct (requested_parameter e) as [name|] eqn:Hread.
    + rewrite (requested_parameter_record _ _ _ _ Hread) in Hstep.
      destruct (match_environments_lookup _ _ _ _ t (NoDup_elements _) Hstep)
        as [Hin Hout].
      rewrite filter_cons. destruct (decide (contains t name = true)) as [Hc|Hc].
      * rewrite Hin; [|by apply elem_of_elements|by apply contains_true].
        simpl. destruct (filter _ (requested_names events)); [done|].
        by rewrite <- app_assoc.
      * rewrite Hout; [done|]. right. by rewrite <- contains_true.
    + by rewrite (get_parameter_step_other _ _ _ _ Hread Hstep).
Qed.

Lemma index_lists (events : list event) (environment_ids : gset string)
    (parameter_data : gmap string (list json)) (t : string) :
  find_get_parameter_events events environment_ids = Ok parameter_data →
  parameter_data !! t
  = if decide (t ∈ environment_ids) then
      match filter (λ v, contains t v = true) (requested_names events) with
      | [] => None
      | names => Some names
      end
    else None.
Proof.
  intros Hrun. destruct (decide (t ∈ environment_ids)) as [Ht|Ht].
  - by rewrite (get_parameter_loop_content _ _ _ _ t Ht Hrun), lookup_empty.
  - destruct (parameter_data !! t) as [names|] eqn:Hnames; [|done].
    by destruct (find_get_parameter_events_invariant _ _ _ Hrun t names Hnames).
Qed.

(** X5. Whenever the secret-access extractor returns, the list of a tenant
    of interest is the sequence of the parameter names that the
    secret-read records ask for and that contain the tenant identifier, in
    the order of the records and with every repetition kept; a tenant
    without such a name has no entry, and neither has an identifier that
    is not of interest. *)
Theorem index_content (events : list event) (environment_ids : gset string)
    (parameter_data : gmap string (list json)) (t : string) :
  find_get_parameter_events events environment_ids = Ok parameter_data →
  parameter_data !! t
  = if decide (t ∈ environment_ids) then
      match filter (λ v, contains t v = true) (requested_names events) with
      | [] => None
      | names => Some names
      end
    else None.
Proof. apply index_lists. Qed.

Lemma index_content_witness :
  ({["envA" := [JStr "/envA/db"; JStr "/envA/envB/db"; JStr "/envA/db"];
     "envB" := [JStr "/envA/envB/db"]]} : gmap string (list json)) !! "envA"
  = if decide ("envA" ∈ ({["envA"; "envB"]} : gset string)) then
      match filter (λ v, contains "envA" v = true)
              (requested_names
                 [read_event "/envA/db"; read_event "/other";
                  assume_event "role-1" "token-1" "key-1";
                  read_event "/envA/envB/db"; read_event "/envA/db"]) with
      | [] => None
      | names => Some names
      end
    else None.
Proof.
  apply (index_content
           [read_event "/envA/db"; read_event "/other";
            assume_event "role-1" "token-1" "key-1";
            read_event "/envA/envB/db"; read_event "/envA/db"]
           {["envA"; "envB"]}).
  vm_compute. reflexivity.
Defined.

(** ** The role-assumption facts *)

Lemma assume_role_step_ok_inv (profile_arns : gset string)
    (data data' : gmap (option string) json) (e : event) :
  assume_role_step profile_arns data e = Ok data' →
  data' = data ∨
  ∃ role session_id access_key_id session_key,
    issued_credentials e = Some (JStr role, session_id, access_key_id) ∧
    role ∈ profile_arns ∧
    hashable session_id = Ok session_key ∧
    data' = <[session_key := access_key_id]> data.
Proof.
  unfold assume_role_step, assume_role_record, issued_credentials.
  intros [Hrecord| ->]%except_continue_ok_inv; [|by left].
  bind_inv Hrecord as doc Hdoc. rewrite Hdoc. simpl.
  bind_inv Hrecord as name Hname. rewrite Hname. simpl.
  destruct (eq_text name "AssumeRole"); [|injection Hrecord as <-; by left].
  bind_inv Hrecord as rp Hrp. rewrite Hrp. simpl.
  bind_inv Hrecord as role_arn Hrole. rewrite Hrole. simpl.
  bind_inv Hrecord as role_key Hrole_key.
  destruct (in_text_set role_key profile_arns) eqn:Hmember;
    [|injection Hrecord as <-; by left].
  bind_inv Hrecord as re Hre. rewrite Hre. simpl.
  bind_inv Hrecord as credentials Hcredentials. rewrite Hcredentials. simpl.
  bind_inv Hrecord as session_id Hsession. rewrite Hsession. simpl.
  bind_inv Hrecord as re' Hre'.
  bind_inv Hrecord as credentials' Hcredentials'.
  bind_inv Hrecord as access_key_id Haccess.
  bind_inv Hrecord as session_key Hsession_key.
  assert (re' = re) as -> by congruence.
  assert (credentials' = credentials) as -> by congruence.
  rewrite Haccess. simpl. injection Hrecord as <-. right.
  destruct role_key as [role|]; [|done]. simpl in Hmember.
  apply bool_decide_eq_true in Hmember.
  destruct role_arn as [|role'| |]; try done. injection Hrole_key as ->.
  by exists role, session_id, access_key_id, session_key.
Qed.

(** X6. Whenever the role-assumption extractor returns, every pair of its
    result was issued by a role-assumption record of the batch for a role
    of interest: the key is the session token of the record and the value
    its access key. *)
Theorem assume_role_data_sound (events : list event)
    (profile_arns : gset string) (assume_role_data : gmap (option string) json)
    (session_key : option string) (access_key_id : json) :
  find_assume_role_events events profile_arns = Ok assume_role_data →
  assume_role_data !! session_key = Some access_key_id →
  ∃ e role session_id,
    e ∈ events ∧
    issued_credentials e = Some (JStr role, session_id, access_key_id) ∧
    role ∈ profile_arns ∧
    hashable session_id = Ok session_key.
Proof.
  intros Hrun. revert session_key access_key_id. revert Hrun.
  apply (for_each_invariant
           (λ data, ∀ k a, data !! k = Some a →
              ∃ e role session_id,
                e ∈ events ∧
                issued_credentials e = Some (JStr role, session_id, a) ∧
                role ∈ profile_arns ∧ hashable session_id = Ok k)).
  - intros d1 e d2 He Hd1 Hstep k a Hlookup.
    apply assume_role_step_ok_inv in Hstep
      as [->|(role & sid & akey & skey & Hissued & Hrole & Hkey & ->)];
      [by apply Hd1|].
    destruct (decide (skey = k)) as [->|Hne].
    + rewrite lookup_insert_eq in Hlookup. injection Hlookup as ->.
      by exists e, role, sid.
    + rewrite lookup_insert_ne in Hlookup by done. by apply Hd1.
  - intros k a Hlookup. by rewrite lookup_empty in Hlookup.
Qed.

Lemma assume_role_data_sound_witness :
  ∃ e role session_id,
    e ∈ [assume_event "role-1" "token-1" "key-1";
         assume_event "role-9" "token-9" "key-9";
         read_event "/envA/db"] ∧
    issued_credentials e = Some (JStr role, session_id, JStr "key-1") ∧
    role ∈ ({["role-1"; "role-2"]} : gset string) ∧
    hashable session_id = Ok (Some "token-1").
Proof.
  apply (assume_role_data_sound
           [assume_event "role-1" "token-1" "key-1";
            assume_event "role-9" "token-9" "key-9";
            read_event "/envA/db"]
           {["role-1"; "role-2"]}
           {[Some "token-1" := JStr "key-1"]}).
  - vm_compute. reflexivity.
  - vm_compute. reflexivity.
Defined.

(** ** The report *)

Lemma py_any_true_inv {A : Type} (test : A → res bool) (xs : list A) :
  py_any test xs = Ok true → ∃ x, x ∈ xs ∧ test x = Ok true.
Proof.
  induction xs as [|x xs IH]; simpl; [done|].
  intros Hany. bind_inv Hany as b Hb. destruct b.
  - exists x. split; [left|done].
  - destruct (IH Hany) as (y & Hy & Htest). exists y. split; [by right|done].
Qed.

Lemma has_mismatch_true_inv (environment_ids : gset string)
    (environment_id : json) (param_names : list json) :
  has_mismatch environment_ids environment_id param_names = Ok true →
  ∃ name other,
    name ∈ param_names ∧ other ∈ environment_ids ∧
    py_in other name = Ok true ∧ eq_text environment_id other = false.
Proof.
  intros (name & Hname & Hinner)%py_any_true_inv.
  apply py_any_true_inv in Hinner as (other & Hother & Htest).
  bind_inv Htest as inside Hinside. injection Htest as Htest.
  apply andb_true_iff in Htest as [-> Hne%negb_true_iff].
  exists name, other. by rewrite <- elem_of_elements.
Qed.

Lemma analyze_instances_loop (environment_ids : gset string)
    (parameter_data : gmap string (list json))
    (items : list (string * (json * json)))
    (state state' : list verdict * nat) :
  for_each (analyze_instance environment_ids parameter_data) items state
  = Ok state' →
  ∃ new,
    state'.1 = state.1 ++ new ∧
    state'.2 = state.2 + List.length new ∧
    map instance_id new `sublist_of` items.*1 ∧
    Forall (verdict_grounded items environment_ids parameter_data) new.
Proof.
  revert state. induction items as [|[id [arn env]] items IH]; intros state Hrun.
  - injection Hrun as <-. exists []. by rewrite app_nil_r, Nat.add_0_r.
  - simpl in Hrun. bind_inv Hrun as state1 Hstep.
    destruct (IH _ Hrun) as (new & Hvs & Hcount & Hsub & Hall).
    assert (Forall (verdict_grounded ((id, (arn, env)) :: items)
                      environment_ids parameter_data) new) as Hall'.
    { eapply Forall_impl; [done|].
      intros v (t & Hin & ?). exists t. split; [by right|done]. }
    bind_inv Hstep as key Hkey.
    destruct (key ≫= (parameter_data !!.)) as [names|] eqn:Hnames.
    + bind_inv Hstep as mismatch Hmismatch. destruct mismatch.
      * injection Hstep as <-. simpl in *.
        exists (Verdict id arn env names :: new).
        rewrite Hvs, Hcount, <- app_assoc. simpl.
        split; [done|]. split; [lia|]. split; [by apply sublist_skip|].
        apply Forall_cons. split; [|done].
        destruct key as [tenant|]; [|done]. simpl in Hnames.
        destruct env as [|tenant'| |]; try done. injection Hkey as ->.
        exists tenant. simpl. split; [left|done].
      * injection Hstep as <-. exists new.
        split; [done|]. split; [done|]. split; [by apply sublist_cons|done].
    + injection Hstep as <-. exists new.
      split; [done|]. split; [done|]. split; [by apply sublist_cons|done].
Qed.

Lemma report_grounded (instance_data : list (string * (json * json)))
    (environment_ids : gset string) (parameter_data : gmap string (list json))
    (r : report) :
  analyze_vulnerability_usage instance_data environment_ids parameter_data
  = Ok r →
  closing r = match verdicts r with
              | [] => NotExploited
              | vs => FoundMismatched (List.length vs)
              end ∧
  map instance_id (verdicts r) `sublist_of` instance_data.*1 ∧
  Forall (verdict_grounded instance_data environment_ids parameter_data)
    (verdicts r).
Proof.
  unfold analyze_vulnerability_usage. intros Hrun.
  bind_inv Hrun as state Hloop. injection Hrun as <-. simpl.
  destruct (analyze_instances_loop _ _ _ _ _ Hloop)
    as (new & Hvs & Hcount & Hsub & Hall).
  simpl in Hvs, Hcount. rewrite Hvs, Hcount. split; [|done].
  destruct new; [done|]. by rewrite bool_decide_eq_false_2.
Qed.

(** X7. Whenever the reporting loop returns, the closing message says
    "not exploited" exactly when no instance was printed and otherwise
    gives the number of printed instances; the printed instances follow the
    order of the launch facts, one verdict at most for each fact; and each
    printed verdict belongs to a launch fact, shows the whole access list of the tenant of that
    fact, and that list made the mismatch test true. *)
Theorem report_consistent (instance_data : list (string * (json * json)))
    (environment_ids : gset string) (parameter_data : gmap string (list json))
    (r : report) :
  analyze_vulnerability_usage instance_data environment_ids parameter_data
  = Ok r →
  closing r = match verdicts r with
              | [] => NotExploited
              | vs => FoundMismatched (List.length vs)
              end ∧
  map instance_id (verdicts r) `sublist_of` instance_data.*1 ∧
  Forall (verdict_grounded instance_data environment_ids parameter_data)
    (verdicts r).
Proof. apply report_grounded. Qed.

Lemma report_consistent_witness :
  closing (Report [Verdict "i-1" (JStr "role-1") (JStr "envA")
                     [JStr "/envA/own"; JStr "/envA/envB/envC"]]
             (FoundMismatched 1))
  = match verdicts (Report [Verdict "i-1" (JStr "role-1") (JStr "envA")
                              [JStr "/envA/own"; JStr "/envA/envB/envC"]]
                      (FoundMismatched 1)) with
    | [] => NotExploited
    | vs => FoundMismatched (List.length vs)
    end ∧
  map instance_id
    (verdicts (Report [Verdict "i-1" (JStr "role-1") (JStr "envA")
                         [JStr "/envA/own"; JStr "/envA/envB/envC"]]
                 (FoundMismatched 1)))
  `sublist_of` (launch_facts three_tenants).*1 ∧
  Forall (verdict_grounded (launch_facts three_tenants)
            (tenant_ids three_tenants) (secret_index three_tenants_index))
    (verdicts (Report [Verdict "i-1" (JStr "role-1") (JStr "envA")
                         [JStr "/envA/own"; JStr "/envA/envB/envC"]]
                 (FoundMismatched 1))).
Proof.
  apply (report_consistent (launch_facts three_tenants)
           (tenant_ids three_tenants) (secret_index three_tenants_index)).
  vm_compute. reflexivity.
Defined.

Lemma text_set_elem (vs : list json) (texts : gset string) (t : string) :
  text_set vs = Ok texts → t ∈ texts → JStr t ∈ vs.
Proof.
  revert texts. induction vs as [|v vs IH]; intros texts Hset Ht.
  - injection Hset as <-. by apply not_elem_of_empty in Ht.
  - simpl in Hset. bind_inv Hset as key Hkey. bind_inv Hset as rest Hrest.
    injection Hset as <-. destruct key as [s|].
    + apply elem_of_union in Ht as [->%elem_of_singleton|Ht].
      * destruct v; try done. injection Hkey as ->. left.
      * right. by apply (IH rest).
    + right. by apply (IH rest).
Qed.

(** X8. In a run that completes, an instance is reported only on the
    strength of one parameter name that a secret-read record of the
    collection asks for and that contains both the tenant identifier of the
    instance and the identifier of a different tenant, itself the tenant of
    some launch fact. *)
Theorem reported_instance_evidence (files : string → file) (r : report)
    (v : verdict) :
  analyze files = Ok r →
  v ∈ verdicts r →
  ∃ get_parameter_events instance_data e name tenant other id' arn',
    files GET_PARAMETER_FILE = Holds get_parameter_events ∧
    launch_facts_of files = Ok instance_data ∧
    (instance_id v, (profile_arn v, JStr tenant)) ∈ instance_data ∧
    environment_id v = JStr tenant ∧
    e ∈ get_parameter_events ∧
    requested_parameter e = Some name ∧
    name ∈ mismatched_calls v ∧
    py_in tenant name = Ok true ∧
    py_in other name = Ok true ∧
    other ≠ tenant ∧
    (id', (arn', JStr other)) ∈ instance_data.
Proof.
  intros (run & getp & data & arns & ids & pd & Hf & Hg & He & _ & Hi & Hp & Hr)
    %analyze_ok_inv Hv.
  destruct (report_grounded _ _ _ _ Hr) as (_ & _ & Hall).
  rewrite Forall_forall in Hall.
  destruct (Hall v Hv) as (tenant & Hfact & Henv & Hlist & Hmismatch).
  apply has_mismatch_true_inv in Hmismatch
    as (name & other & Hname & Hother & Hin_other & Hne).
  destruct (find_get_parameter_events_invariant _ _ _ Hp tenant _ Hlist)
    as [Htenant Hcontains].
  rewrite Forall_forall in Hcontains.
  assert (name ∈ requested_names getp) as Hasked.
  { rewrite (index_lists _ _ _ tenant Hp), decide_True in Hlist by done.
    destruct (filter _ (requested_names getp)) as [|n ns] eqn:Hfilter; [done|].
    injection Hlist as Hlist. rewrite <- Hlist, <- Hfilter in Hname.
    by apply list_elem_of_filter in Hname as [_ ?]. }
  apply list_elem_of_omap in Hasked as (e & He_in & Hread).
  apply (text_set_elem _ _ _ Hi) in Hother.
  apply list_elem_of_fmap in Hother as ([id' [arn' env']] & Heq & Hin').
  simpl in Heq. subst env'.
  exists getp, data, e, name, tenant, other, id', arn'.
  unfold launch_facts_of, load_json_file. rewrite Hf. simpl.
  rewrite Henv in Hfact, Hne. simpl in Hne.
  apply bool_decide_eq_false in Hne.
  repeat split; try done. by apply Hcontains.
Qed.

Lemma reported_instance_evidence_witness :
  ∃ get_parameter_events instance_data e name tenant other id' arn',
    directory (Holds two_launches) (Holds [])
      (Holds [read_event "/envA/db"; read_event "/envA/envB/db"])
      GET_PARAMETER_FILE = Holds get_parameter_events ∧
    launch_facts_of
      (directory (Holds two_launches) (Holds [])
         (Holds [read_event "/envA/db"; read_event "/envA/envB/db"]))
    = Ok instance_data ∧
    (instance_id (Verdict "i-1" (JStr "role-1") (JStr "envA")
                    [JStr "/envA/db"; JStr "/envA/envB/db"]),
     (profile_arn (Verdict "i-1" (JStr "role-1") (JStr "envA")
                     [JStr "/envA/db"; JStr "/envA/envB/db"]),
      JStr tenant)) ∈ instance_data ∧
    environment_id (Verdict "i-1" (JStr "role-1") (JStr "envA")
                      [JStr "/envA/db"; JStr "/envA/envB/db"]) = JStr tenant ∧
    e ∈ get_parameter_events ∧
    requested_parameter e = Some name ∧
    name ∈ mismatched_calls (Verdict "i-1" (JStr "role-1") (JStr "envA")
                               [JStr "/envA/db"; JStr "/envA/envB/db"]) ∧
    py_in tenant name = Ok true ∧
    py_in other name = Ok true ∧
    other ≠ tenant ∧
    (id', (arn', JStr other)) ∈ instance_data.
Proof.
  apply (reported_instance_evidence
           (directory (Holds two_launches) (Holds [])
              (Holds [read_event "/envA/db"; read_event "/envA/envB/db"]))
           (Report
              [Verdict "i-1" (JStr "role-1") (JStr "envA")
                 [JStr "/envA/db"; JStr "/envA/envB/db"];
               Verdict "i-2" (JStr "role-2") (JStr "envB")
                 [JStr "/envA/envB/db"]]
              (FoundMismatched 2))).
  - vm_compute. reflexivity.
  - simpl. left.
Defined.

(** * The ingestion layer *)

Lemma prepend_prepend (events more : list event)
    (result : outcome (list event)) :
  prepend events (prepend more result) = prepend (events ++ more) result.
Proof. destruct result; simpl; [by rewrite app_assoc | done]. Qed.

Lemma prepend_nil (result : outcome (list event)) : prepend [] result = result.
Proof. by destruct result. Qed.

Section FetchEvents.
Context {C T : Type}.
Context (lookup_events : C → lookup_request T → lookup_response * C).
Context (event_name : string) (start_time end_time : T).

Lemma fetch_loop_session (fuel : nat) (client client' : C)
    (events : list event) (token : option string)
    (result : outcome (list event)) :
  fetch_loop lookup_events fuel client event_name start_time end_time events
    token = Some (result, client') →
  ∃ collected,
    result = prepend events collected ∧
    lookup_session lookup_events event_name start_time end_time client token
      collected client'.
Proof.
  revert client events token.
  induction fuel as [|fuel IH]; intros client events token; [done|].
  simpl.
  destruct (lookup_events client _) as [[page next|e] client1] eqn:Hcall.
  - destruct (usable_token next) as [t|] eqn:Hnext.
    + intros (collected & -> & Hsession)%IH.
      exists (prepend (default [] page) collected).
      split; [by rewrite prepend_prepend|].
      eapply session_more; [done|by rewrite Hnext|done].
    + intros [= <- <-]. exists (Done (default [] page)).
      split; [done|]. by eapply session_last.
  - destruct e as [| |code|];
      try (intros [= <- <-]; eexists (Failed _); split; [done|];
           by eapply session_failed).
    destruct (decide (code = THROTTLING)) as [->|Hne].
    + intros (collected & -> & Hsession)%IH. exists collected.
      split; [done|]. by eapply session_throttled.
    + intros [= <- <-]. exists (Failed (ClientError code)).
      split; [done|]. eapply session_failed; [done|congruence].
Qed.

Lemma session_fetch_loop (client client' : C) (token : option string)
    (collected : outcome (list event)) :
  lookup_session lookup_events event_name start_time end_time client token
    collected client' →
  ∀ events, ∃ fuel,
    fetch_loop lookup_events fuel client event_name start_time end_time events
      token = Some (prepend events collected, client').
Proof.
  induction 1 as [client client1 client2 token result Hcall _ IH
                 |client client1 token e Hcall Hne
                 |client client1 token page next Hcall Hnext
                 |client client1 client2 token page next result Hcall Hnext _ IH];
    intros events.
  - destruct (IH events) as [fuel Hfuel]. exists (S fuel). simpl.
    rewrite Hcall. by rewrite decide_True.
  - exists 1. simpl. rewrite Hcall. destruct e as [| |code|]; try done.
    rewrite decide_False; [done|]. by intros ->.
  - exists 1. simpl. by rewrite Hcall, Hnext.
  - destruct (IH (events ++ default [] page)) as [fuel Hfuel].
    exists (S fuel). simpl. rewrite Hcall.
    destruct Hnext as [t Hnext]. rewrite Hnext, Hfuel.
    by rewrite prepend_prepend.
Qed.

(** X9. [fetch_events] returns exactly what a conversation with the
    client gives that starts without token: the events of the responses in
    the order of the calls, each response once, where a throttled call is
    repeated with the same token, the token of a response is sent with the
    next call and a response without token (or with an empty one) is the
    last; the first exception other than throttling is raised in place of
    the events. *)
Theorem fetch_events_session (client client' : C)
    (result : outcome (list event)) :
  (∃ fuel,
     fetch_events lookup_events fuel client event_name start_time end_time
     = Some (result, client')) ↔
  lookup_session lookup_events event_name start_time end_time client None
    result client'.
Proof.
  unfold fetch_events. split.
  - intros [fuel (collected & -> & Hsession)%fetch_loop_session].
    by rewrite prepend_nil.
  - intros Hsession. destruct (session_fetch_loop _ _ _ _ Hsession []) as [fuel H].
    exists fuel. by rewrite prepend_nil in H.
Qed.

(** X10. The retry on throttling has no bound: against a client that
    throttles every call [fetch_events] never returns. *)
Theorem fetch_events_throttled_forever (fuel : nat) (client : C) :
  (∀ c request,
     (lookup_events c request).1 = LookupFails (ClientError THROTTLING)) →
  fetch_events lookup_events fuel client event_name start_time end_time = None.
Proof.
  intros Hthrottle. unfold fetch_events.
  generalize (@nil event) (@None string). revert client.
  induction fuel as [|fuel IH]; intros client events token; [done|].
  simpl. specialize (Hthrottle client
    (LookupRequest event_name start_time end_time 50 (usable_token token))).
  destruct (lookup_events client _) as [response client1].
  simpl in Hthrottle. subst response. rewrite decide_True by done. apply IH.
Qed.
End FetchEvents.

Lemma fetch_events_throttled_forever_witness :
  fetch_events
    (λ (c : unit) (request : lookup_request Z),
       (LookupFails (ClientError THROTTLING), c))
    1000 () "GetParameter" 0%Z 90%Z = None.
Proof.
  apply (fetch_events_throttled_forever
           (λ (c : unit) (request : lookup_request Z),
              (LookupFails (ClientError THROTTLING), c))).
  intros c request. reflexivity.
Defined.

(** Two pages with a throttled call in between, then a page without
    [Events], whose token is still followed. *)
Example fetch_events_pages :
  fetch_events scripted 10
    [Response (Some [read_event "/envA/db"]) (Some "t1");
     LookupFails (ClientError THROTTLING);
     Response None (Some "t2");
     Response (Some [read_event "/envB/key"]) (Some "")]
    "GetParameter" 0%Z 90%Z
  = Some (Done [read_event "/envA/db"; read_event "/envB/key"], []).
Proof. reflexivity. Qed.

Lemma path_exists_true (files : string → file) (f : string) :
  path_exists files f = true ↔ files f ≠ NoFile.
Proof. unfold path_exists. by destruct (files f). Qed.

Lemma analyze_ok_files (files : string → file) (r : report) (f : string) :
  analyze files = Ok r →
  f ∈ EVENT_TYPES.*2 → ∃ events, files f = Holds events.
Proof.
  unfold analyze, load_json_file. intros Hrun Hf.
  destruct (files RUN_INSTANCES_FILE) as [| |run] eqn:H1; try done.
  destruct (files ASSUME_ROLE_FILE) as [| |assume] eqn:H2; try done.
  destruct (files GET_PARAMETER_FILE) as [| |getp] eqn:H3; try done.
  simpl in Hf. repeat (apply elem_of_cons in Hf as [->|Hf]); eauto.
  by apply elem_of_nil in Hf.
Qed.

Lemma call_analyze_reported (files : string → file) (r : report) :
  call_analyze files = Reported r → analyze files = Ok r.
Proof. unfold call_analyze. destruct (analyze files); congruence. Qed.


Lemma all_files_exist (files : string → file) :
  forallb (λ event_type, path_exists files event_type.2) EVENT_TYPES = true ↔
  ∀ f, f ∈ EVENT_TYPES.*2 → files f ≠ NoFile.
Proof.
  rewrite forallb_forall. setoid_rewrite path_exists_true. split.
  - intros Hall f ([name f'] & -> & Hin)%list_elem_of_fmap.
    apply (Hall (name, f')). by apply list_elem_of_In.
  - intros Hall [name f] Hin%list_elem_of_In. apply Hall.
    apply list_elem_of_fmap. by exists (name, f).
Qed.

Section Main.
Context {C T : Type}.
Context (lookup_events : C → lookup_request T → lookup_response * C).
Context (boto3_client : string → outcome C).
Context (time_range : Z → outcome (T * T)).

Lemma kept_or_fetched_trans (event_types : list (string * string))
    (event_name filename : string) (events : list event)
    (files files' : string → file) (f : string) :
  files filename = NoFile → events ≠ [] →
  kept_or_fetched event_types
    (save_events_to_file events filename files) files' f →
  kept_or_fetched ((event_name, filename) :: event_types) files files' f.
Proof.
  unfold kept_or_fetched, save_events_to_file. intros Habsent Hevents.
  destruct (decide (f = filename)) as [->|Hne].
  - intros [Hkept|[? _]]; [|done]. right. split; [done|].
    exists event_name, events. split; [left|done].
  - intros [Hkept|(Hno & name & evs & Hin & Hevs & Hheld)]; [by left|].
    right. split; [done|]. exists name, evs. split; [by right|done].
Qed.

(** The loop over the event types: it creates files and does nothing else
    to the directory; left at its end, every file of the list exists; left
    for want of events, the file of that event type is still absent. *)
Lemma fetch_event_types_spec (fuel : nat) (client : C) (start_time end_time : T)
    (event_types : list (string * string)) (files files' : string → file)
    (left_early : option main_result) :
  fetch_event_types lookup_events fuel client start_time end_time event_types
    files = Some (files', left_early) →
  (∀ f, kept_or_fetched event_types files files' f) ∧
  match left_early with
  | None => ∀ f, f ∈ event_types.*2 → files' f ≠ NoFile
  | Some (NoEvents event_name) =>
      ∃ f, (event_name, f) ∈ event_types ∧ files' f = NoFile
  | Some (Raised e) => True
  | Some (Reported r) => False
  end.
Proof.
  revert client files.
  induction event_types as [|[name filename] rest IH]; intros client files.
  - intros [= <- <-]. split; [by left|]. by intros f ?%elem_of_nil.
  - cbn [fetch_event_types].
    destruct (path_exists files filename) eqn:Hexists.
    + intros [Hfiles Hleft]%IH. split.
      * intros f. destruct (Hfiles f) as [?|(? & n & evs & ? & ? & ?)];
          [by left|]. right. split; [done|]. exists n, evs.
        split; [by right|done].
      * destruct left_early as [[r|n|e]|]; try done.
        -- destruct Hleft as (f & Hin & Hf). exists f. split; [by right|done].
        -- intros f Hf. rewrite fmap_cons in Hf. simpl in Hf.
           apply elem_of_cons in Hf as [->|Hf]; [|by apply Hleft].
           apply path_exists_true in Hexists.
           destruct (Hfiles filename) as [->|[? _]]; done.
    + assert (files filename = NoFile) as Habsent.
      { unfold path_exists in Hexists. by destruct (files filename). }
      destruct (fetch_events _ _ _ _ _ _) as [[[events|e] client1]|]; [| |done].
      * destruct events as [|ev events].
        -- intros [= <- <-]. split; [by left|]. exists filename.
           split; [left|done].
        -- intros [Hfiles Hleft]%IH. split.
           ++ intros f.
              apply (kept_or_fetched_trans rest name filename (ev :: events));
                [done|done|apply Hfiles].
           ++ destruct left_early as [[r|n|e]|]; try done.
              ** destruct Hleft as (f & Hin & Hf). exists f.
                 split; [by right|done].
              ** intros f Hf. rewrite fmap_cons in Hf. simpl in Hf.
                 apply elem_of_cons in Hf as [->|Hf]; [|by apply Hleft].
                 destruct (Hfiles filename) as [Hkept|[Hno _]].
                 --- rewrite Hkept. unfold save_events_to_file.
                     by rewrite decide_True.
                 --- unfold save_events_to_file in Hno.
                     by rewrite decide_True in Hno.
      * intros [= <- <-]. split; [by left|done].
Qed.

(** X11. [main] only ever creates files: a file that exists is left as it
    is, whatever it holds, and a file that [main] creates is the file of
    one of the three event types and holds at least one event. *)
Theorem main_files (fuel : nat) (aws_region : option string) (days : Z)
    (files files' : string → file) (result : main_result) (f : string) :
  main lookup_events boto3_client time_range fuel aws_region days files
  = Some (files', result) →
  kept_or_fetched EVENT_TYPES files files' f.
Proof.
  unfold main.
  destruct (forallb _ EVENT_TYPES); [intros [= <- _]; by left|].
  destruct (create_cloudtrail_client _ _) as [client|e];
    [|intros [= <- _]; by left].
  destruct (time_range days) as [[start_time end_time]|e];
    [|intros [= <- _]; by left].
  destruct (fetch_event_types _ _ _ _ _ _ _) as [[files1 left_early]|] eqn:Hloop;
    [|done].
  destruct (fetch_event_types_spec _ _ _ _ _ _ _ _ Hloop) as [Hfiles _].
  destruct left_early; intros [= <- _]; apply Hfiles.
Qed.

Lemma main_reported_inv (fuel : nat) (aws_region : option string) (days : Z)
    (files files' : string → file) (r : report) :
  main lookup_events boto3_client time_range fuel aws_region days files
  = Some (files', Reported r) →
  analyze files' = Ok r ∧
  forallb (λ event_type, path_exists files' event_type.2) EVENT_TYPES = true.
Proof.
  unfold main.
  destruct (forallb _ EVENT_TYPES) eqn:Hall.
  { intros [= <- Hr]. split; [|done]. by apply call_analyze_reported. }
  destruct (create_cloudtrail_client _ _) as [client|e]; [|done].
  destruct (time_range days) as [[start_time end_time]|e]; [|done].
  destruct (fetch_event_types _ _ _ _ _ _ _) as [[files1 left_early]|] eqn:Hloop;
    [|done].
  destruct (fetch_event_types_spec _ _ _ _ _ _ _ _ Hloop) as [_ Hleft].
  destruct left_early as [[r'|n|e]|]; try done.
  intros [= <- Hr]. split; [by apply call_analyze_reported|].
  by apply all_files_exist.
Qed.

(** X12. When [main] ends with a report, the report is that of [analyze]
    on the directory that [main] leaves, in which the three event files
    exist; and unless an empty event file was there from the start, none of
    the three collections analysed is empty. *)
Theorem main_reports_on_events (fuel : nat) (aws_region : option string)
    (days : Z) (files files' : string → file) (r : report) :
  main lookup_events boto3_client time_range fuel aws_region days files
  = Some (files', Reported r) →
  analyze files' = Ok r ∧
  ∀ f, f ∈ EVENT_TYPES.*2 →
    ∃ events, files' f = Holds events ∧ (files f ≠ Holds [] → events ≠ []).
Proof.
  intros Hmain. destruct (main_reported_inv _ _ _ _ _ _ Hmain) as [Hr _].
  split; [done|]. intros f Hf.
  destruct (analyze_ok_files _ _ _ Hr Hf) as [events Hevents].
  exists events. split; [done|]. intros Hnonempty ->.
  assert (kept_or_fetched EVENT_TYPES files files' f) as Hkept.
  { unfold main in Hmain.
    destruct (forallb _ EVENT_TYPES); [injection Hmain as <- _; by left|].
    destruct (create_cloudtrail_client _ _) as [client|e]; [|done].
    destruct (time_range days) as [[start_time end_time]|e]; [|done].
    destruct (fetch_event_types _ _ _ _ _ _ _) as [[files1 left_early]|]
      eqn:Hloop; [|done].
    destruct (fetch_event_types_spec _ _ _ _ _ _ _ _ Hloop) as [Hfiles _].
    destruct left_early; injection Hmain as <- _; apply Hfiles. }
  destruct Hkept as [Hsame|(_ & name & evs & _ & Hevs & Hheld)].
  - congruence.
  - rewrite Hevents in Hheld. by injection Hheld as <-.
Qed.

(** X13. A run of [main] that ends with a report leaves a directory on
    which every later run gives the same report without fetching: neither
    the region, nor the client, nor the look-back matters any more, and the
    directory stays as it is. *)
Theorem main_rerun (fuel fuel' : nat) (aws_region aws_region' : option string)
    (days days' : Z) (files files' : string → file) (r : report) :
  main lookup_events boto3_client time_range fuel aws_region days files
  = Some (files', Reported r) →
  main lookup_events boto3_client time_range fuel' aws_region' days' files'
  = Some (files', Reported r).
Proof.
  intros [Hr Hall]%main_reported_inv.
  unfold main, call_analyze. by rewrite Hall, Hr.
Qed.


(** X15. [AWS_REGION] is read only when an event file is missing: with the
    variable unset or empty, [main] analyses the three files if they all
    exist, and otherwise raises [ValueError] and leaves the directory as it
    is. *)
Theorem main_without_region (fuel : nat) (aws_region : option string)
    (days : Z) (files : string → file) :
  aws_region = None ∨ aws_region = Some "" →
  main lookup_events boto3_client time_range fuel aws_region days files
  = Some (files,
          if forallb (λ event_type, path_exists files event_type.2) EVENT_TYPES
          then call_analyze files
          else Raised ValueError).
Proof.
  intros Hregion. unfold main, create_cloudtrail_client.
  destruct (forallb _ EVENT_TYPES); [done|].
  by destruct Hregion as [-> | ->].
Qed.
End Main.

(** A first run in an empty directory fetches the three collections, the
    second of them after a throttled call, saves them and analyses them. *)
Example main_sample_run :
  main scripted (sample_client sample_script) sample_range 10
    (Some "eu-central-1") 90 empty_directory
  = Some (fetched_directory, Reported sample_report).
Proof. vm_compute. reflexivity. Qed.

Lemma main_files_witness :
  kept_or_fetched EVENT_TYPES empty_directory fetched_directory
    GET_PARAMETER_FILE.
Proof.
  apply (main_files scripted (sample_client sample_script) sample_range 10
           (Some "eu-central-1") 90 empty_directory fetched_directory
           (Reported sample_report)).
  vm_compute. reflexivity.
Defined.

Lemma main_reports_on_events_witness :
  analyze fetched_directory = Ok sample_report ∧
  ∀ f, f ∈ EVENT_TYPES.*2 →
    ∃ events, fetched_directory f = Holds events ∧
              (empty_directory f ≠ Holds [] → events ≠ []).
Proof.
  apply (main_reports_on_events scripted (sample_client sample_script)
           sample_range 10 (Some "eu-central-1") 90).
  vm_compute. reflexivity.
Defined.

Lemma main_rerun_witness :
  main scripted (sample_client []) sample_range 0 None 7 fetched_directory
  = Some (fetched_directory, Reported sample_report).
Proof.
  apply (main_rerun scripted (sample_client []) sample_range 10 0
           (Some "eu-central-1") None 90 7 fetched_directory).
  vm_compute. reflexivity.
Defined.


Lemma main_without_region_witness :
  main scripted (sample_client sample_script) sample_range 10 (Some "") 90
    empty_directory
  = Some (empty_directory,
          if forallb (λ event_type, path_exists empty_directory event_type.2)
               EVENT_TYPES
          then call_analyze empty_directory
          else Raised ValueError).
Proof.
  apply (main_without_region scripted (sample_client sample_script)
           sample_range).
  right. reflexivity.
Defined.
